(** * VeloxClip icon builder: a model of [generate_icon.py]

    The script turns one image into a macOS [.icns] bundle by calling two
    external programs, [sips] (scaling) and [iconutil] (compiling), over a
    fixed table of sizes.  Everything it does is an effect: directory
    creation and removal, subprocess invocation, console output, and
    [sys.exit].  The model below threads a file-system tree through the
    script, collects the effects of a run in a trace, and represents Python
    exceptions (including [SystemExit]) as an explicit result.

    Modelled fragment of the operating system: POSIX paths in a tree of
    directories and regular files, without symbolic links, without
    permissions on files and directories, and without other processes
    changing the tree during a run; the console accepts every string.
    [pathlib] keeps a [".."] component, the kernel follows it to the
    directory above.  The two external programs are a parameter: whether
    they can be launched, what they report and whether their output can be
    decoded is up to them. *)

From Stdlib Require Import ZArith String Ascii List Lia.
From stdpp Require Import base option list strings gmap pretty.

Local Open Scope string_scope.
Local Open Scope list_scope.

(** ** Paths *)

Abbreviation key := (list string).

Module PosixPath.

(** [s.split(c)]: the pieces of [s] between occurrences of [c]. *)
Fixpoint split_on (c : ascii) (s : string) : list string :=
  match s with
  | EmptyString => [ EmptyString ]
  | String a s' =>
      if Ascii.eqb a c then EmptyString :: split_on c s'
      else match split_on c s' with
           | [] => [ String a EmptyString ]
           | w :: ws => String a w :: ws
           end
  end.

Definition slash : ascii := "/"%char.

Definition is_name (c : string) : bool :=
  negb (String.eqb c "") && negb (String.eqb c ".").

(** The meaningful components of a path string: empty pieces and ["."]
    are dropped, as both [pathlib] and the kernel do. *)
Definition components (s : string) : list string :=
  List.filter is_name (split_on slash s).

(** [posixpath.splitroot]: one leading slash, or exactly two. *)
Definition root_of (s : string) : string :=
  match s with
  | String "/" (String "/" (String "/" _)) => "/"
  | String "/" (String "/" _) => "//"
  | String "/" _ => "/"
  | _ => ""
  end.

(** A parsed [pathlib.PurePosixPath]: its root and its tail. *)
Record Path := mkPath { root : string; tail : list string }.

Definition Path_of (s : string) : Path :=
  {| root := root_of s; tail := components s |}.

Fixpoint join (sep : string) (l : list string) : string :=
  match l with
  | [] => ""
  | [ x ] => x
  | x :: l' => x +:+ sep +:+ join sep l'
  end.

(** [str(path)] *)
Definition str (p : Path) : string :=
  match root p, tail p with
  | EmptyString, [] => "."
  | r, l => r +:+ join "/" l
  end.

(** [path.parent]: a path without tail is its own parent. *)
Definition parent (p : Path) : Path :=
  match tail p with
  | [] => p
  | _ => {| root := root p; tail := removelast (tail p) |}
  end.

(** One step of the kernel's walk along a path: [".."] leads to the
    directory above (the root is above itself), a name leads below. *)
Definition step (cur : key) (c : string) : key :=
  if String.eqb c ".." then removelast cur else cur ++ [ c ].

(** The nodes passed on the walk from [cur] along [comps], the last one
    being the node the path denotes. *)
Fixpoint way (cur : key) (comps : list string) : list key :=
  match comps with
  | [] => []
  | c :: rest => step cur c :: way (step cur c) rest
  end.

(** Where the walk starts: at the root, or at the working directory. *)
Definition base_of (cwd : key) (p : Path) : key :=
  match root p with
  | EmptyString => cwd
  | _ => []
  end.

(** The node a path denotes, seen from the working directory [cwd]. *)
Definition key_of (cwd : key) (p : Path) : key :=
  fold_left step (tail p) (base_of cwd p).

(** The kernel splits a path string as [pathlib] does: empty pieces and
    ["."] count for nothing. *)
Definition resolve (cwd : key) (s : string) : key := key_of cwd (Path_of s).

(** The nodes a path leads through, the one it denotes included. *)
Definition passed (cwd : key) (p : Path) : list key :=
  way (base_of cwd p) (tail p).

(** A path string that only a directory can satisfy: it ends in a slash
    or in a ["."] component. *)
Definition wants_dir (s : string) : bool :=
  negb (is_name (List.last (split_on slash s) "")).

Definition starts_with_slash (s : string) : bool :=
  match s with String "/" _ => true | _ => false end.

Fixpoint ends_with_slash (s : string) : bool :=
  match s with
  | EmptyString => false
  | String a EmptyString => Ascii.eqb a slash
  | String _ s' => ends_with_slash s'
  end.

(** [os.path.join(a, b)] *)
Definition os_path_join (a b : string) : string :=
  if starts_with_slash b then b
  else if String.eqb a "" || ends_with_slash a then a +:+ b
  else a +:+ "/" +:+ b.


(** A string with a NUL character is no path and no program argument. *)
Fixpoint has_nul (s : string) : bool :=
  match s with
  | EmptyString => false
  | String a s' => Ascii.eqb a Ascii.zero || has_nul s'
  end.

End PosixPath.
Import PosixPath.

(** ** File system *)

Inductive node : Type :=
| File (content : string)
| Dir.

Abbreviation tree := (gmap (list string) node).

(** The root always exists and is a directory. *)
Definition stat (t : tree) (k : key) : option node :=
  match k with
  | [] => Some Dir
  | _ => t !! k
  end.

Definition is_dir (t : tree) (k : key) : bool :=
  match stat t k with
  | Some Dir => true
  | _ => false
  end.

(** Removal of the whole subtree below (and including) [k]. *)
Definition remove_subtree (k : key) (t : tree) : tree :=
  filter (fun kv : list string * node => ¬ (k `prefix_of` kv.1)) t.

(** What a program that writes its output file at [k] leaves behind: the
    file, when its directory exists and [k] is not itself a directory. *)
Definition write_file (k : key) (content : string) (t : tree) : tree :=
  if is_dir t (removelast k) && negb (is_dir t k)
  then <[ k := File content ]> t
  else t.

(** The errors of the kernel that matter here. *)
Inductive errno : Type :=
| ENOENT
| EEXIST
| ENOTDIR
| EACCES
| EOTHER (code : Z).

(** The kernel's walk from [cur] along the components of a path: every
    node passed before the last one must be a directory that exists. *)
Fixpoint walk (t : tree) (cur : key) (comps : list string) : errno + key :=
  match comps with
  | [] => inr cur
  | c :: rest =>
      let next := step cur c in
      match rest with
      | [] => inr next
      | _ :: _ =>
          match stat t next with
          | Some Dir => walk t next rest
          | Some (File _) => inl ENOTDIR
          | None => inl ENOENT
          end
      end
  end.

(** The node a path string leads to, which need not exist. *)
Definition locate (cwd : key) (t : tree) (s : string) : errno + key :=
  if String.eqb s "" then inl ENOENT
  else walk t (base_of cwd (Path_of s)) (tail (Path_of s)).

(** [os.stat]: a path without components is the root or the working
    directory itself, which the process holds open; a regular file is not
    found through a name that asks for a directory. *)
Definition os_stat (cwd : key) (t : tree) (s : string) : errno + node :=
  match locate cwd t s with
  | inl e => inl e
  | inr k =>
      match tail (Path_of s) with
      | [] => inr Dir
      | _ :: _ =>
          match stat t k with
          | None => inl ENOENT
          | Some Dir => inr Dir
          | Some (File c) => if wants_dir s then inl ENOTDIR else inr (File c)
          end
      end
  end.

(** ** Effects, exceptions and the run monad *)

Inductive exn : Type :=
| FileExistsError (path : string)
| FileNotFoundError (path : string)
| NotADirectoryError (path : string)
| PermissionError (path : string)
| OSError (code : Z) (path : string)
| ValueError (message : string)
| UnicodeDecodeError
| SystemExit (code : Z).

(** The subclass of [OSError] Python raises for an error of the kernel. *)
Definition os_exn (e : errno) (path : string) : exn :=
  match e with
  | ENOENT => FileNotFoundError path
  | EEXIST => FileExistsError path
  | ENOTDIR => NotADirectoryError path
  | EACCES => PermissionError path
  | EOTHER code => OSError code path
  end.

(** [isinstance(e, OSError)] *)
Definition is_OSError (e : exn) : bool :=
  match e with
  | FileExistsError _ | FileNotFoundError _ | NotADirectoryError _
  | PermissionError _ | OSError _ _ => true
  | _ => false
  end.

Inductive result (A : Type) : Type :=
| Ret (a : A)
| Raise (e : exn).
Arguments Ret {A} a.
Arguments Raise {A} e.

(** [subprocess.CompletedProcess], the fields the script reads. *)
Record CompletedProcess := mkCompleted { returncode : Z; stderr : string }.

Inductive event : Type :=
| EvMkdir (path : string)
| EvRmtree (path : string)
| EvMakedirs (path : string)
| EvRun (argv : list string) (before : tree) (completed : option CompletedProcess)
| EvPrint (text : string).

(** The two external programs are not part of the repository; they are a
    parameter of the model.  Given the working directory, the file system
    and the argument vector, a program cannot be launched (the kernel
    refuses with an error), or it runs and exits with a status and
    diagnostic text, or it runs and what it wrote to its standard streams
    is no text.  When it runs it leaves, following the capability contract
    of both tools, at most one file: the one named by its output argument
    (the last argument of both command lines). *)
Inductive outcome : Type :=
| Unlaunched (e : errno)
| Completed (cp : CompletedProcess) (out : option string)
| Undecodable (out : option string).

Definition utilities : Type := key -> tree -> list string -> outcome.

Definition M (A : Type) : Type := key -> tree -> result A * tree * list event.

Definition ret {A} (a : A) : M A := fun _ t => (Ret a, t, []).

Definition raise {A} (e : exn) : M A := fun _ t => (Raise e, t, []).

Definition bind {A B} (m : M A) (f : A -> M B) : M B :=
  fun cwd t =>
    match m cwd t with
    | (Ret a, t1, tr1) =>
        match f a cwd t1 with
        | (r, t2, tr2) => (r, t2, tr1 ++ tr2)
        end
    | (Raise e, t1, tr1) => (Raise e, t1, tr1)
    end.

Declare Scope run_scope.
Delimit Scope run_scope with run.
Bind Scope run_scope with M.
Notation "x <- m ;; k" := (bind m (fun x => k))
  (at level 100, m at next level, k at level 200, right associativity) : run_scope.
Notation "m ;; k" := (bind m (fun _ => k))
  (at level 100, k at level 200, right associativity) : run_scope.
Local Open Scope run_scope.

(** A [for] loop whose body may execute [return v]: the body answers
    [Some v] for a return and [None] to go on with the next element. *)
Fixpoint for_each {A R} (l : list A) (body : A -> M (option R)) : M (option R) :=
  match l with
  | [] => ret None
  | x :: l' =>
      r <- body x ;;
      match r with
      | Some v => ret (Some v)
      | None => for_each l' body
      end
  end.

(** ** Library calls used by the script *)

Definition print (text : string) : M unit :=
  fun _ t => (Ret tt, t, [ EvPrint text ]).

Definition sys_exit {A} (code : Z) : M A := raise (SystemExit code).

(** What [os.path.exists] answers; a string with a NUL character names
    nothing. *)
Definition path_exists (cwd : key) (t : tree) (s : string) : bool :=
  if has_nul s then false
  else match os_stat cwd t s with
       | inr _ => true
       | inl _ => false
       end.

(** [os.path.isdir], and [Path.is_dir] *)
Definition path_is_dir (cwd : key) (t : tree) (s : string) : bool :=
  if has_nul s then false
  else match os_stat cwd t s with
       | inr Dir => true
       | _ => false
       end.

(** [os.path.exists] *)
Definition os_path_exists (s : string) : M bool :=
  fun cwd t => (Ret (path_exists cwd t s), t, []).

(** Does the last component of a path name an entry that could be
    created?  Not when there is none, or when it is [".."]. *)
Definition names_entry (comps : list string) : bool :=
  match comps with
  | [] => false
  | _ :: _ => negb (String.eqb (List.last comps "") "..")
  end.

(** [os.mkdir] *)
Definition os_mkdir (s : string) (cwd : key) (t : tree) : exn + tree :=
  if has_nul s then inl (ValueError "embedded null byte")
  else match locate cwd t s with
       | inl e => inl (os_exn e s)
       | inr k =>
           if negb (names_entry (tail (Path_of s))) then inl (FileExistsError s)
           else match stat t k with
                | Some _ => inl (FileExistsError s)
                | None =>
                    match stat t (removelast k) with
                    | Some Dir => inr (<[ k := Dir ]> t)
                    | Some (File _) => inl (NotADirectoryError s)
                    | None => inl (FileNotFoundError s)
                    end
                end
       end.

(** [path.mkdir(parents=False, exist_ok=True)]: the directory may be there
    already. *)
Definition mkdir_exist_ok (p : Path) (cwd : key) (t : tree) : result unit * tree :=
  match os_mkdir (str p) cwd t with
  | inr t' => (Ret tt, t')
  | inl (FileNotFoundError s) => (Raise (FileNotFoundError s), t)
  | inl e =>
      if is_OSError e && path_is_dir cwd t (str p) then (Ret tt, t)
      else (Raise e, t)
  end.

(** [path.mkdir(parents=True, exist_ok=True)] for the path with root [r]
    and tail [rev rtail], as [pathlib] does it: try [os.mkdir]; when a
    directory on the way is missing, make the parent in the same manner and
    try once more.  The directories made stay when a later step fails. *)
Fixpoint mkdir_parents (r : string) (rtail : list string) (cwd : key) (t : tree)
  : result unit * tree :=
  let p := {| root := r; tail := rev rtail |} in
  match os_mkdir (str p) cwd t with
  | inr t' => (Ret tt, t')
  | inl (FileNotFoundError s) =>
      match rtail with
      | [] => (Raise (FileNotFoundError s), t)
      | _ :: rparent =>
          match mkdir_parents r rparent cwd t with
          | (Ret _, t1) => mkdir_exist_ok p cwd t1
          | (Raise e, t1) => (Raise e, t1)
          end
      end
  | inl e =>
      if is_OSError e && path_is_dir cwd t (str p) then (Ret tt, t)
      else (Raise e, t)
  end.

(** [path.mkdir(parents=True, exist_ok=True)] *)
Definition Path_mkdir (p : Path) : M unit :=
  fun cwd t =>
    match mkdir_parents (root p) (rev (tail p)) cwd t with
    | (r, t') => (r, t', [ EvMkdir (str p) ])
    end.

(** [shutil.rmtree] *)
Definition shutil_rmtree (s : string) : M unit :=
  fun cwd t =>
    match locate cwd t s with
    | inl e => (Raise (os_exn e s), t, [ EvRmtree s ])
    | inr k =>
        match stat t k with
        | Some Dir => (Ret tt, remove_subtree k t, [ EvRmtree s ])
        | Some (File _) => (Raise (NotADirectoryError s), t, [ EvRmtree s ])
        | None => (Raise (FileNotFoundError s), t, [ EvRmtree s ])
        end
    end.

(** [os.makedirs(name)] for a name without directory part, as the script
    calls it: there is no ancestor to make, and since [exist_ok] is false
    every error of [os.mkdir] is passed on. *)
Definition os_makedirs (s : string) : M unit :=
  fun cwd t =>
    match os_mkdir s cwd t with
    | inr t' => (Ret tt, t', [ EvMakedirs s ])
    | inl e => (Raise e, t, [ EvMakedirs s ])
    end.

(** What a program that ran has left in the tree. *)
Definition produce (cwd : key) (argv : list string) (out : option string) (t : tree)
  : tree :=
  match out, locate cwd t (List.last argv "") with
  | Some c, inr k => write_file k c t
  | _, _ => t
  end.

(** [subprocess.run(argv, capture_output=True, text=True)]: it raises
    [ValueError] before anything is launched when an argument holds a NUL
    character, the [OSError] of the kernel when the program cannot be
    launched, and [UnicodeDecodeError] when the program has run and its
    captured output is no text; otherwise it returns what the program
    reported. *)
Definition subprocess_run (env : utilities) (argv : list string)
  : M CompletedProcess :=
  fun cwd t =>
    if existsb has_nul argv
    then (Raise (ValueError "embedded null byte"), t, [ EvRun argv t None ])
    else match env cwd t argv with
         | Unlaunched e =>
             (Raise (os_exn e (List.hd "" argv)), t, [ EvRun argv t None ])
         | Completed cp out =>
             (Ret cp, produce cwd argv out t, [ EvRun argv t (Some cp) ])
         | Undecodable out =>
             (Raise UnicodeDecodeError, produce cwd argv out t, [ EvRun argv t None ])
         end.

(** [str(n)] for an integer. *)
Definition str_int (n : Z) : string := pretty n.

(** ** The script *)

Definition iconset_name : string := "VeloxClip.iconset".

(** Required icon sizes for macOS *)
Definition icon_sizes : list (Z * string) :=
  [ (16, "icon_16x16.png");
    (32, "icon_16x16@2x.png");
    (32, "icon_32x32.png");
    (64, "icon_32x32@2x.png");
    (128, "icon_128x128.png");
    (256, "icon_128x128@2x.png");
    (256, "icon_256x256.png");
    (512, "icon_256x256@2x.png");
    (512, "icon_512x512.png");
    (1024, "icon_512x512@2x.png") ]%Z.

Definition sips_argv (input_image : string) (spec : Z * string) : list string :=
  [ "sips"; "-z"; str_int spec.1; str_int spec.1; input_image; "--out";
    os_path_join iconset_name spec.2 ].

Definition iconutil_argv (output_path : Path) : list string :=
  [ "iconutil"; "-c"; "icns"; iconset_name; "-o"; str output_path ].

Definition failed_to_generate (filename err : string) : string :=
  "❌ Failed to generate " +:+ filename +:+ ": " +:+ err.

Definition generation_failed (err : string) : string :=
  "❌ Icon generation failed: " +:+ err.

(** The body of the loop over [icon_sizes]. *)
Definition render (env : utilities) (input_image : string) (spec : Z * string)
  : M (option bool) :=
  let filename := spec.2 in
  result <- subprocess_run env (sips_argv input_image spec) ;;
  if negb (returncode result =? 0)%Z then
    print (failed_to_generate filename (stderr result)) ;;
    shutil_rmtree iconset_name ;;
    ret (Some false)
  else ret None.

Definition generate_icon (env : utilities) (input_image output_icns : string)
  : M bool :=
  let output_path := Path_of output_icns in
  (* Create output directory if needed *)
  Path_mkdir (parent output_path) ;;
  (* Remove old iconset if exists *)
  old <- os_path_exists iconset_name ;;
  (if old then shutil_rmtree iconset_name else ret tt) ;;
  os_makedirs iconset_name ;;
  print "🎨 Generating app icon..." ;;
  print ("📥 Input image: " +:+ input_image) ;;
  print "📐 Generating icon sizes..." ;;
  (* Generate all sizes using sips *)
  early <- for_each icon_sizes (render env input_image) ;;
  match early with
  | Some answer => ret answer
  | None =>
      print "✅ Generated all icon sizes" ;;
      (* Generate .icns file using iconutil *)
      print "🔨 Generating .icns file..." ;;
      result <- subprocess_run env (iconutil_argv output_path) ;;
      (* Clean up *)
      shutil_rmtree iconset_name ;;
      if negb (returncode result =? 0)%Z then
        print (generation_failed (stderr result)) ;;
        ret false
      else
        print "✅ Icon generated successfully!" ;;
        print ("📦 Output file: " +:+ str output_path) ;;
        ret true
  end.

Definition newline : string := String (ascii_of_nat 10) EmptyString.

Definition output_icns_default : string := "VeloxClip/Resources/AppIcon.icns".

(** The [__main__] block; [argv] is [sys.argv]. *)
Definition main (env : utilities) (argv : list string) : M unit :=
  (if (length argv <? 2)%nat then
     print "Usage: python3 generate_icon.py <image_path>" ;;
     print "Example: python3 generate_icon.py icon.png" ;;
     sys_exit 1
   else ret tt) ;;
  let input_image := List.nth 1 argv "" in
  let output_icns := output_icns_default in
  found <- os_path_exists input_image ;;
  (if negb found then
     print ("❌ Error: File not found '" +:+ input_image +:+ "'") ;;
     sys_exit 1
   else ret tt) ;;
  ok <- generate_icon env input_image output_icns ;;
  if ok then
    print (newline +:+ "💡 Tip: Icon has been generated, you can now run build_app.sh to build the app") ;;
    sys_exit 0
  else sys_exit 1.

(** The exit status of the process: the code given to [sys.exit], 1 for
    any other uncaught exception, 0 when the script runs to its end. *)
Definition exit_status {A} (r : result A) : Z :=
  match r with
  | Raise (SystemExit code) => code
  | Raise _ => 1
  | Ret _ => 0
  end.

(** ** Observations on a trace *)

(** The argument vectors of the subprocess invocations, in order. *)
Definition invocations (tr : list event) : list (list string) :=
  omap (fun e => match e with EvRun argv _ _ => Some argv | _ => None end) tr.

(** The exit statuses reported by the invocations that completed. *)
Definition statuses (tr : list event) : list Z :=
  omap (fun e => match e with
                 | EvRun _ _ (Some cp) => Some (returncode cp)
                 | _ => None
                 end) tr.

(** The texts given to [print], one for each call. *)
Definition printed (tr : list event) : list string :=
  omap (fun e => match e with EvPrint text => Some text | _ => None end) tr.

(** The trace without console output: directory operations and
    invocations. *)
Definition actions (tr : list event) : list event :=
  List.filter (fun e => match e with EvPrint _ => false | _ => true end) tr.

(** ** The runs of the script, with the utilities abstracted away *)

(** The working directory and the file a rendition is written to. *)
Definition iconset_key (cwd : key) : key := cwd ++ [ iconset_name ].

Definition rendition_key (cwd : key) (spec : Z * string) : key :=
  resolve cwd (os_path_join iconset_name spec.2).

(** What a completed program may have done to the tree: nothing, or
    written its output file at [k]. *)
Definition left_by (k : key) (t t' : tree) : Prop :=
  t' = t \/ exists c, t' = write_file k c t.


(** The exceptions of the operating system, as opposed to [SystemExit]. *)
Definition os_error (e : exn) : bool :=
  match e with
  | SystemExit _ => false
  | _ => true
  end.

(** The exceptions [subprocess.run] raises: the program cannot be
    launched, an argument holds a NUL character, or the captured output of
    the program cannot be decoded. *)
Inductive run_error (argv : list string) : exn -> Prop :=
| launch_refused e :
    run_error argv (os_exn e (List.hd "" argv))
| embedded_null :
    run_error argv (ValueError "embedded null byte")
| output_undecodable :
    run_error argv UnicodeDecodeError.

(** The runs of the loop over a list of SizeSpecs, from tree [t]. *)
Inductive loop_run (input_image : string) (cwd : key)
  : list (Z * string) -> tree -> result (option bool) -> tree -> list event -> Prop :=
| loop_done t :
    loop_run input_image cwd [] t (Ret None) t []
| loop_next spec l t cp t1 r t' tr :
    returncode cp = 0%Z ->
    left_by (rendition_key cwd spec) t t1 ->
    loop_run input_image cwd l t1 r t' tr ->
    loop_run input_image cwd (spec :: l) t r t'
      (EvRun (sips_argv input_image spec) t (Some cp) :: tr)
| loop_failed spec l t cp t1 :
    returncode cp ≠ 0%Z ->
    left_by (rendition_key cwd spec) t t1 ->
    loop_run input_image cwd (spec :: l) t (Ret (Some false))
      (remove_subtree (iconset_key cwd) t1)
      [ EvRun (sips_argv input_image spec) t (Some cp);
        EvPrint (failed_to_generate spec.2 (stderr cp));
        EvRmtree iconset_name ]
| loop_crashed spec l t e t1 :
    run_error (sips_argv input_image spec) e ->
    left_by (rendition_key cwd spec) t t1 ->
    loop_run input_image cwd (spec :: l) t (Raise e) t1
      [ EvRun (sips_argv input_image spec) t None ].

(** A trace of successful renditions, one per SizeSpec of [specs]. *)
Definition rendered (input_image : string) (specs : list (Z * string))
  (tr : list event) : Prop :=
  Forall2 (fun spec e => exists before cp,
             e = EvRun (sips_argv input_image spec) before (Some cp)
             /\ returncode cp = 0%Z) specs tr.

(** How the trace of the loop ends after the successful renditions: the
    list is exhausted, or the next rendition fails, or [subprocess.run]
    raises. *)
Inductive loop_ending (input_image : string)
  : list (Z * string) -> result (option bool) -> list event -> Prop :=
| ending_done :
    loop_ending input_image [] (Ret None) []
| ending_failed spec l before cp :
    returncode cp ≠ 0%Z ->
    loop_ending input_image (spec :: l) (Ret (Some false))
      [ EvRun (sips_argv input_image spec) before (Some cp);
        EvPrint (failed_to_generate spec.2 (stderr cp));
        EvRmtree iconset_name ]
| ending_crashed spec l before e :
    run_error (sips_argv input_image spec) e ->
    loop_ending input_image (spec :: l) (Raise e)
      [ EvRun (sips_argv input_image spec) before None ].

(** The effects of the first lines of [generate_icon], up to the loop. *)
Definition prepared (input_image output_icns : string) (old : bool) : list event :=
  EvMkdir (str (parent (Path_of output_icns)))
  :: (if old then [ EvRmtree iconset_name ] else [])
  ++ [ EvMakedirs iconset_name;
       EvPrint "🎨 Generating app icon...";
       EvPrint ("📥 Input image: " +:+ input_image);
       EvPrint "📐 Generating icon sizes..." ].

(** The tree the loop starts from: the output directory made, an old
    working directory removed, a new one created. *)
Definition prepared_tree (cwd : key) (old : bool) (t1 : tree) : tree :=
  <[ iconset_key cwd := Dir ]>
    (if old then remove_subtree (iconset_key cwd) t1 else t1).

(** The effects of the lines after a completed compilation. *)
Definition compiled (output_icns : string) (before : tree) (cp : CompletedProcess)
  : list event :=
  [ EvPrint "✅ Generated all icon sizes";
    EvPrint "🔨 Generating .icns file...";
    EvRun (iconutil_argv (Path_of output_icns)) before (Some cp);
    EvRmtree iconset_name ]
  ++ (if negb (returncode cp =? 0)%Z
      then [ EvPrint (generation_failed (stderr cp)) ]
      else [ EvPrint "✅ Icon generated successfully!";
             EvPrint ("📦 Output file: " +:+ str (Path_of output_icns)) ]).

(** The traces of a call that stops before the loop, on an exception of
    one of the directory operations. *)
Definition unprepared (output_icns : string) : list (list event) :=
  let made := EvMkdir (str (parent (Path_of output_icns))) in
  [ [ made ];
    [ made; EvRmtree iconset_name ];
    [ made; EvMakedirs iconset_name ];
    [ made; EvRmtree iconset_name; EvMakedirs iconset_name ] ].

(** The tree after the first statement of [generate_icon], when it does
    not raise. *)
Definition output_directory_made (output_icns : string) (cwd : key) (t t1 : tree)
  : Prop :=
  let p := parent (Path_of output_icns) in
  Path_mkdir p cwd t = (Ret tt, t1, [ EvMkdir (str p) ]).

(** The ways a call of [generate_icon] can go. *)
Inductive build_run (input_image output_icns : string) (cwd : key) (t : tree)
  : result bool -> tree -> list event -> Prop :=
| build_unmade e t' :
    os_error e = true ->
    Path_mkdir (parent (Path_of output_icns)) cwd t
    = (Raise e, t', [ EvMkdir (str (parent (Path_of output_icns))) ]) ->
    build_run input_image output_icns cwd t (Raise e) t'
      [ EvMkdir (str (parent (Path_of output_icns))) ]
| build_unprepared t1 e t' tr :
    output_directory_made output_icns cwd t t1 ->
    os_error e = true ->
    In tr (List.tl (unprepared output_icns)) ->
    t' = t1 \/ t' = remove_subtree (iconset_key cwd) t1 ->
    build_run input_image output_icns cwd t (Raise e) t' tr
| build_sips_crashed t1 e t' trl :
    let old := path_exists cwd t1 iconset_name in
    output_directory_made output_icns cwd t t1 ->
    is_dir (prepared_tree cwd old t1) cwd = true ->
    loop_run input_image cwd icon_sizes (prepared_tree cwd old t1) (Raise e) t' trl ->
    build_run input_image output_icns cwd t (Raise e) t'
      (prepared input_image output_icns old ++ trl)
| build_rendition_failed t1 answer t' trl :
    let old := path_exists cwd t1 iconset_name in
    output_directory_made output_icns cwd t t1 ->
    is_dir (prepared_tree cwd old t1) cwd = true ->
    loop_run input_image cwd icon_sizes (prepared_tree cwd old t1)
      (Ret (Some answer)) t' trl ->
    build_run input_image output_icns cwd t (Ret answer) t'
      (prepared input_image output_icns old ++ trl)
| build_iconutil_crashed t1 t4 trl e t5 :
    let old := path_exists cwd t1 iconset_name in
    output_directory_made output_icns cwd t t1 ->
    is_dir (prepared_tree cwd old t1) cwd = true ->
    loop_run input_image cwd icon_sizes (prepared_tree cwd old t1) (Ret None) t4 trl ->
    run_error (iconutil_argv (Path_of output_icns)) e ->
    left_by (resolve cwd (str (Path_of output_icns))) t4 t5 ->
    build_run input_image output_icns cwd t (Raise e) t5
      (prepared input_image output_icns old ++ trl
       ++ [ EvPrint "✅ Generated all icon sizes";
            EvPrint "🔨 Generating .icns file...";
            EvRun (iconutil_argv (Path_of output_icns)) t4 None ])
| build_compiled t1 t4 trl cp t5 :
    let old := path_exists cwd t1 iconset_name in
    output_directory_made output_icns cwd t t1 ->
    is_dir (prepared_tree cwd old t1) cwd = true ->
    loop_run input_image cwd icon_sizes (prepared_tree cwd old t1) (Ret None) t4 trl ->
    left_by (resolve cwd (str (Path_of output_icns))) t4 t5 ->
    build_run input_image output_icns cwd t
      (Ret (returncode cp =? 0)%Z) (remove_subtree (iconset_key cwd) t5)
      (prepared input_image output_icns old ++ trl ++ compiled output_icns t4 cp).

(** The traces of [generate_icon], by the way the call ends. *)
Inductive trace_shape (input_image output_icns : string)
  : result bool -> list event -> Prop :=
| shape_unprepared e tr :
    os_error e = true ->
    In tr (unprepared output_icns) ->
    trace_shape input_image output_icns (Raise e) tr
| shape_sips_crashed old l1 spec l2 oks before e :
    icon_sizes = l1 ++ spec :: l2 ->
    rendered input_image l1 oks ->
    run_error (sips_argv input_image spec) e ->
    trace_shape input_image output_icns (Raise e)
      (prepared input_image output_icns old ++ oks
       ++ [ EvRun (sips_argv input_image spec) before None ])
| shape_rendition_failed old l1 spec l2 oks before cp :
    icon_sizes = l1 ++ spec :: l2 ->
    rendered input_image l1 oks ->
    returncode cp ≠ 0%Z ->
    trace_shape input_image output_icns (Ret false)
      (prepared input_image output_icns old ++ oks
       ++ [ EvRun (sips_argv input_image spec) before (Some cp);
            EvPrint (failed_to_generate spec.2 (stderr cp));
            EvRmtree iconset_name ])
| shape_iconutil_crashed old oks before e :
    rendered input_image icon_sizes oks ->
    run_error (iconutil_argv (Path_of output_icns)) e ->
    trace_shape input_image output_icns (Raise e)
      (prepared input_image output_icns old ++ oks
       ++ [ EvPrint "✅ Generated all icon sizes";
            EvPrint "🔨 Generating .icns file...";
            EvRun (iconutil_argv (Path_of output_icns)) before None ])
| shape_compiled old oks before cp :
    rendered input_image icon_sizes oks ->
    trace_shape input_image output_icns (Ret (returncode cp =? 0)%Z)
      (prepared input_image output_icns old ++ oks
       ++ compiled output_icns before cp).

(** ** Vocabulary of the statements *)

(** The file name macOS expects for the icon of nominal size [n], at scale
    1 or at scale 2 (["@2x"]). *)
Definition icon_filename (n : Z) (retina : bool) : string :=
  "icon_" +:+ str_int n +:+ "x" +:+ str_int n
  +:+ (if retina then "@2x" else "") +:+ ".png".

(** The pixel size of that icon. *)
Definition icon_pixels (n : Z) (retina : bool) : Z :=
  if retina then (2 * n)%Z else n.

(** The files the [sips] invocations of a trace write to. *)
Definition is_sips (argv : list string) : bool :=
  String.eqb (List.hd "" argv) "sips".

Definition rendition_targets (cwd : key) (tr : list event) : list key :=
  List.map (fun argv => resolve cwd (List.last argv ""))
    (List.filter is_sips (invocations tr)).

(** The messages of the [__main__] block. *)
Definition usage : list event :=
  [ EvPrint "Usage: python3 generate_icon.py <image_path>";
    EvPrint "Example: python3 generate_icon.py icon.png" ].

Definition file_not_found (input_image : string) : event :=
  EvPrint ("❌ Error: File not found '" +:+ input_image +:+ "'").

Definition tip : event :=
  EvPrint (newline +:+ "💡 Tip: Icon has been generated, you can now run build_app.sh to build the app").

(** Every entry of the tree lies in a directory. *)
Definition well_formed (t : tree) : Prop :=
  forall k n, t !! k = Some n -> is_dir t (removelast k) = true.

(** The three ways [generate_icon] comes to an end by [return]. *)
Inductive exit_path (input_image output_icns : string) (tr : list event) : Prop :=
| rendition_failure spec before cp :
    In spec icon_sizes ->
    In (EvRun (sips_argv input_image spec) before (Some cp)) tr ->
    returncode cp ≠ 0%Z ->
    exit_path input_image output_icns tr
| compile_failure before cp :
    In (EvRun (iconutil_argv (Path_of output_icns)) before (Some cp)) tr ->
    returncode cp ≠ 0%Z ->
    exit_path input_image output_icns tr
| success before cp :
    In (EvRun (iconutil_argv (Path_of output_icns)) before (Some cp)) tr ->
    returncode cp = 0%Z ->
    exit_path input_image output_icns tr.

(** Equality of events is decidable. *)
#[global] Instance node_eq_dec : EqDecision node.
Proof. solve_decision. Defined.

#[global] Instance CompletedProcess_eq_dec : EqDecision CompletedProcess.
Proof. solve_decision. Defined.

#[global] Instance event_eq_dec : EqDecision event.
Proof. solve_decision. Defined.

(** ** Well-formed path components *)

Fixpoint no_slash (s : string) : bool :=
  match s with
  | EmptyString => true
  | String a s' => negb (Ascii.eqb a slash) && no_slash s'
  end.

(** What [pathlib] keeps as a component: a name, or [".."], without a
    slash. *)
Definition is_component (c : string) : bool := is_name c && no_slash c.

(** The paths [pathlib] builds: the root is empty, one slash or two, and
    the tail is made of components. *)
Definition normal (p : Path) : Prop :=
  (root p = "" \/ root p = "/" \/ root p = "//")
  /\ Forall (fun c => is_component c = true) (tail p).

(** ** Sample runs *)

Module Sample.

Definition cwd : key := [ "work" ].

(** A project directory holding one image. *)
Definition project : tree :=
  <[ [ "work"; "icon.png" ] := File "png" ]> (<[ [ "work" ] := Dir ]> ∅).

(** The same project after an interrupted run: an old working directory
    with one stale rendition is still there. *)
Definition stale_project : tree :=
  <[ [ "work"; "VeloxClip.iconset"; "icon_16x16.png" ] := File "stale" ]>
    (<[ [ "work"; "VeloxClip.iconset" ] := Dir ]> project).

Definition completed : CompletedProcess := {| returncode := 0; stderr := "" |}.

(** Both tools work. *)
Definition tools : utilities :=
  fun _ _ _ => Completed completed (Some "data").

(** [sips] fails on the file [name]. *)
Definition sips_failing_on (name : string) : utilities :=
  fun _ _ argv =>
    if String.eqb (List.last argv "") (os_path_join iconset_name name)
    then Completed {| returncode := 1;
                      stderr := "Error 13: an unknown error occurred" |} None
    else Completed completed (Some "data").

(** Neither tool is installed. *)
Definition no_tools : utilities := fun _ _ _ => Unlaunched ENOENT.

(** [iconutil] rejects the iconset. *)
Definition iconutil_failing : utilities :=
  fun _ _ argv =>
    if String.eqb (List.hd "" argv) "iconutil"
    then Completed {| returncode := 1; stderr := "Invalid Iconset." |} None
    else Completed completed (Some "data").

(** [iconutil] writes the icon, and bytes that are no text on its
    standard error. *)
Definition iconutil_garbling : utilities :=
  fun _ _ argv =>
    if String.eqb (List.hd "" argv) "iconutil"
    then Undecodable (Some "icns")
    else Completed completed (Some "data").

(** The tree in which the [n]-th event of a trace, an invocation, ran. *)
Definition tree_before (n : nat) (tr : list event) : tree :=
  match List.nth_error tr n with
  | Some (EvRun _ before _) => before
  | _ => ∅
  end.

Definition failed : CompletedProcess :=
  {| returncode := 1; stderr := "Error 13: an unknown error occurred" |}.

Definition rejected : CompletedProcess :=
  {| returncode := 1; stderr := "Invalid Iconset." |}.

(** Four calls: a success, a failure of the third rendition, a failure of
    the compilation, and a success over the stale project. *)
Abbreviation built :=
  (generate_icon tools "icon.png" output_icns_default cwd project).

Abbreviation unrendered :=
  (generate_icon (sips_failing_on "icon_32x32.png") "icon.png"
     output_icns_default cwd project).

Abbreviation uncompiled :=
  (generate_icon iconutil_failing "icon.png" output_icns_default cwd project).

Abbreviation rebuilt :=
  (generate_icon tools "icon.png" output_icns_default cwd stale_project).

End Sample.

(** ** Further vocabulary *)

(** The invocations of a call that goes all the way: the ten renditions in
    the order of the table, then the compilation. *)
Definition all_invocations (input_image output_icns : string) : list (list string) :=
  List.map (sips_argv input_image) icon_sizes
  ++ [ iconutil_argv (Path_of output_icns) ].

(** The file [iconutil] is asked to write. *)
Definition output_key (cwd : key) (output_icns : string) : key :=
  resolve cwd (str (Path_of output_icns)).

(** The directory the command line has its icon written to. *)
Definition resources_key (cwd : key) : key := cwd ++ [ "VeloxClip"; "Resources" ].

(** The texts with which the script reports a failure. *)
Definition is_error_message (text : string) : bool := String.prefix "❌" text.

(** More sample trees: a regular file has the name of the working
    directory; the image lies inside an old working directory. *)
Module Edge.

Definition blocked_project : tree :=
  <[ [ "work"; "VeloxClip.iconset" ] := File "not a directory" ]> Sample.project.

Definition misplaced_project : tree :=
  <[ [ "work"; "VeloxClip.iconset"; "icon.png" ] := File "png" ]>
    (<[ [ "work"; "VeloxClip.iconset" ] := Dir ]> (<[ [ "work" ] := Dir ]> ∅)).

Abbreviation crashed :=
  (generate_icon Sample.no_tools "icon.png" output_icns_default
     Sample.cwd Sample.project).

Abbreviation garbled :=
  (generate_icon Sample.iconutil_garbling "icon.png" output_icns_default
     Sample.cwd Sample.project).

Abbreviation blocked :=
  (generate_icon Sample.tools "icon.png" output_icns_default
     Sample.cwd blocked_project).

Abbreviation misplaced :=
  (generate_icon Sample.tools "VeloxClip.iconset/icon.png" output_icns_default
     Sample.cwd misplaced_project).

(** A second call, on the tree a first call has left. *)
Abbreviation again :=
  (generate_icon Sample.iconutil_failing "icon.png" output_icns_default
     Sample.cwd (Sample.built).1.2).

End Edge.

(** [subprocess.run] returns for the command line [argv], whatever the
    tree. *)
Definition completes (env : utilities) (cwd : key) (argv : list string) : Prop :=
  forall t : tree,
    exists cp t', (subprocess_run env argv cwd t).1 = (Ret cp, t').

(** A computation returns, in a tree that satisfies [Q]. *)
Definition returns {A} (m : M A) (cwd : key) (t : tree) (Q : A -> tree -> Prop) : Prop :=
  exists a t' tr, m cwd t = (Ret a, t', tr) /\ Q a t'.

(** The tree in which the first invocation of a trace ran. *)
Definition first_seen (tr : list event) : option tree :=
  List.hd_error
    (omap (fun e => match e with EvRun _ before _ => Some before | _ => None end) tr).

(** * Proofs *)

(** ** Facts about the file-system tree *)

Section tree_facts.
Implicit Types (t : tree) (k : key).

Lemma stat_nonempty t k : k ≠ [] -> stat t k = t !! k.
Proof. destruct k; [congruence | reflexivity]. Qed.

Lemma stat_snoc t k c : stat t (k ++ [c]) = t !! (k ++ [c]).
Proof. apply stat_nonempty. destruct k; discriminate. Qed.

Lemma lookup_remove_subtree k t k' :
  remove_subtree k t !! k' = if decide (k `prefix_of` k') then None else t !! k'.
Proof.
  unfold remove_subtree. destruct (decide (k `prefix_of` k')) as [Hp | Hp].
  - apply map_lookup_filter_None. right. intros x _ Hn. apply Hn, Hp.
  - destruct (t !! k') as [x |] eqn:E.
    + apply map_lookup_filter_Some. split; [exact E | exact Hp].
    + apply map_lookup_filter_None. left. exact E.
Qed.

Lemma remove_subtree_inside k t k' :
  k `prefix_of` k' -> remove_subtree k t !! k' = None.
Proof. intros Hp. rewrite lookup_remove_subtree. destruct (decide _); [done | contradiction]. Qed.

Lemma remove_subtree_outside k t k' :
  ¬ (k `prefix_of` k') -> remove_subtree k t !! k' = t !! k'.
Proof. intros Hp. rewrite lookup_remove_subtree. destruct (decide _); [contradiction | done]. Qed.

Lemma is_dir_spec t k : is_dir t k = true <-> stat t k = Some Dir.
Proof.
  unfold is_dir. destruct (stat t k) as [[c |] |]; split; congruence.
Qed.

Lemma write_file_other k c t k' : k' ≠ k -> write_file k c t !! k' = t !! k'.
Proof.
  intros Hne. unfold write_file.
  destruct (is_dir t (removelast k) && negb (is_dir t k)); [| reflexivity].
  apply lookup_insert_ne. congruence.
Qed.

Lemma write_file_keeps_dir k c t k' :
  is_dir t k' = true -> is_dir (write_file k c t) k' = true.
Proof.
  intros Hd. unfold write_file.
  destruct (is_dir t (removelast k)); simpl; [| exact Hd].
  destruct (is_dir t k) eqn:Hk; simpl; [exact Hd |].
  destruct k' as [| a k']; [reflexivity |].
  unfold is_dir, stat in *. rewrite lookup_insert_ne; [exact Hd |].
  intros ->. unfold stat in Hk. rewrite Hk in Hd. discriminate.
Qed.

Lemma write_file_lookup k c t k' :
  write_file k c t !! k' = t !! k' \/ (k' = k /\ write_file k c t !! k' = Some (File c)).
Proof.
  unfold write_file.
  destruct (is_dir t (removelast k) && negb (is_dir t k)); [| by left].
  destruct (decide (k' = k)) as [-> | Hne].
  - right. split; [done |]. apply lookup_insert_eq.
  - left. apply lookup_insert_ne. congruence.
Qed.

End tree_facts.

(** ** Paths *)

Lemma step_name (cur : key) (c : string) : String.eqb c ".." = false -> step cur c = cur ++ [ c ].
Proof. unfold step. by intros ->. Qed.

Lemma step_up (cur : key) : step cur ".." = removelast cur.
Proof. reflexivity. Qed.

Lemma fold_step_snoc (cur : key) (comps : list string) (c : string) :
  fold_left step (comps ++ [ c ]) cur = step (fold_left step comps cur) c.
Proof. by rewrite fold_left_app. Qed.

Lemma way_app (cur : key) (l1 l2 : list string) :
  way cur (l1 ++ l2) = way cur l1 ++ way (fold_left step l1 cur) l2.
Proof.
  revert cur. induction l1 as [| c l1 IH]; intros cur; [reflexivity |].
  cbn. by rewrite IH.
Qed.

Lemma way_last (cur : key) (comps : list string) :
  comps ≠ [] -> List.last (way cur comps) [] = fold_left step comps cur.
Proof.
  revert cur. induction comps as [| c comps IH]; intros cur Hne; [done |].
  destruct comps as [| c' comps]; [reflexivity |].
  change (way cur (c :: c' :: comps)) with (step cur c :: way (step cur c) (c' :: comps)).
  change (fold_left step (c :: c' :: comps) cur)
    with (fold_left step (c' :: comps) (step cur c)).
  rewrite <- IH by done. reflexivity.
Qed.

Lemma In_way_last (cur : key) (comps : list string) :
  comps ≠ [] -> In (fold_left step comps cur) (way cur comps).
Proof.
  revert cur. induction comps as [| c comps IH]; intros cur Hne; [done |].
  destruct comps as [| c' comps]; [by left |].
  right. apply (IH (step cur c)). done.
Qed.

(** Without [".."] the walk only goes down. *)
Lemma fold_step_names (cur : key) (comps : list string) :
  ¬ In ".." comps -> fold_left step comps cur = cur ++ comps.
Proof.
  revert cur. induction comps as [| c comps IH]; intros cur Hno.
  - by rewrite app_nil_r.
  - cbn [fold_left]. rewrite IH by (intros H; apply Hno; by right).
    rewrite step_name.
    + by rewrite <- app_assoc.
    + apply String.eqb_neq. intros ->. apply Hno. by left.
Qed.

Lemma way_names (cur : key) (comps : list string) (k : key) :
  ¬ In ".." comps -> In k (way cur comps) ->
  cur `prefix_of` k /\ k ≠ cur /\ k `prefix_of` cur ++ comps.
Proof.
  revert cur. induction comps as [| c comps IH]; intros cur Hno; [intros [] |].
  assert (Hc : step cur c = cur ++ [ c ]).
  { apply step_name, String.eqb_neq. intros ->. apply Hno. by left. }
  cbn [way]. rewrite Hc. intros [<- | Hin].
  - split; [by eexists |]. split.
    + intros H. apply (f_equal length) in H. rewrite length_app in H. cbn in H. lia.
    + by exists comps; rewrite <- app_assoc.
  - destruct (IH (cur ++ [ c ])) as (Hp & Hne & Hk); [intros H; apply Hno; by right | exact Hin |].
    rewrite <- app_assoc in Hk. split; [| split; [| exact Hk]].
    + etrans; [| exact Hp]. by eexists.
    + intros ->. destruct Hp as [s Hs]. apply (f_equal length) in Hs.
      rewrite !length_app in Hs. cbn in Hs. lia.
Qed.

Lemma walk_inr (t : tree) (comps : list string) : forall (cur k : key),
  walk t cur comps = inr k -> k = fold_left step comps cur.
Proof.
  induction comps as [| c comps IH]; intros cur k; cbn [walk fold_left].
  - by intros [= <-].
  - destruct comps as [| c' comps]; [by intros [= <-] |].
    destruct (stat t (step cur c)) as [[content |] |]; try discriminate.
    apply IH.
Qed.

(** A walk that arrives has passed through directories only. *)
Lemma walk_passed (t : tree) (comps : list string) : forall (cur k k' : key),
  walk t cur comps = inr k ->
  In k' (removelast (way cur comps)) -> is_dir t k' = true.
Proof.
  induction comps as [| c comps IH]; intros cur k k'; [intros _ [] |].
  destruct comps as [| c' comps]; [intros _ [] |].
  change (walk t cur (c :: c' :: comps))
    with (match stat t (step cur c) with
          | Some Dir => walk t (step cur c) (c' :: comps)
          | Some (File _) => inl ENOTDIR
          | None => inl ENOENT
          end).
  change (removelast (way cur (c :: c' :: comps)))
    with (step cur c :: removelast (way (step cur c) (c' :: comps))).
  destruct (stat t (step cur c)) as [[content |] |] eqn:Hst; try discriminate.
  intros Hw [<- | Hin].
  - unfold is_dir. by rewrite Hst.
  - eapply IH; eassumption.
Qed.

(** The walk arrives when the nodes it passes are directories. *)
Lemma walk_arrives (t : tree) (comps : list string) : forall (cur : key),
  (forall k', In k' (removelast (way cur comps)) -> is_dir t k' = true) ->
  walk t cur comps = inr (fold_left step comps cur).
Proof.
  induction comps as [| c comps IH]; intros cur Hd; [reflexivity |].
  destruct comps as [| c' comps]; [reflexivity |].
  change (walk t cur (c :: c' :: comps))
    with (match stat t (step cur c) with
          | Some Dir => walk t (step cur c) (c' :: comps)
          | Some (File _) => inl ENOTDIR
          | None => inl ENOENT
          end).
  change (removelast (way cur (c :: c' :: comps)))
    with (step cur c :: removelast (way (step cur c) (c' :: comps))) in Hd.
  assert (H : is_dir t (step cur c) = true) by (apply Hd; by left).
  unfold is_dir in H. destruct (stat t (step cur c)) as [[content |] |]; try discriminate.
  apply (IH (step cur c)). intros k' Hk'. apply Hd. by right.
Qed.

Lemma walk_mono (t t' : tree) (comps : list string) (cur k : key) :
  (forall k', is_dir t k' = true -> is_dir t' k' = true) ->
  walk t cur comps = inr k -> walk t' cur comps = inr k.
Proof.
  intros Hmono Hw. rewrite (walk_inr _ _ _ _ Hw).
  apply walk_arrives. intros k' Hk'. apply Hmono. eapply walk_passed; eassumption.
Qed.

Lemma locate_inr (cwd : key) (t : tree) (s : string) (k : key) :
  locate cwd t s = inr k -> k = resolve cwd s.
Proof.
  unfold locate. destruct (String.eqb s ""); [discriminate |]. apply walk_inr.
Qed.

Lemma locate_mono (cwd : key) (t t' : tree) (s : string) (k : key) :
  (forall k', is_dir t k' = true -> is_dir t' k' = true) ->
  locate cwd t s = inr k -> locate cwd t' s = inr k.
Proof.
  unfold locate. destruct (String.eqb s ""); [discriminate |]. apply walk_mono.
Qed.

(** ** From a path to its string and back *)

Lemma split_on_pieces s : Forall (fun c => no_slash c = true) (split_on slash s).
Proof.
  induction s as [| a s IH]; cbn [split_on]; [by repeat constructor |].
  destruct (Ascii.eqb a slash) eqn:Ha; [by constructor |].
  destruct (split_on slash s) as [| w ws].
  - repeat constructor. cbn. by rewrite Ha.
  - inversion IH as [| ? ? Hw Hws]; subst. constructor; [| exact Hws].
    cbn. by rewrite Ha.
Qed.

Lemma split_on_no_slash s : no_slash s = true -> split_on slash s = [ s ].
Proof.
  induction s as [| a s IH]; [reflexivity |]. cbn [no_slash split_on].
  intros [Ha Hs]%andb_prop. apply negb_true_iff in Ha. rewrite Ha, (IH Hs). reflexivity.
Qed.

Lemma split_on_app_slash a b :
  no_slash a = true ->
  split_on slash (a +:+ "/" +:+ b) = a :: split_on slash b.
Proof.
  induction a as [| x a IH]; [reflexivity |]. cbn [no_slash].
  intros [Hx Ha]%andb_prop. apply negb_true_iff in Hx.
  change (String x a +:+ "/" +:+ b) with (String x (a +:+ "/" +:+ b)).
  cbn [split_on]. rewrite Hx, (IH Ha). reflexivity.
Qed.

Lemma split_on_join l :
  Forall (fun c => no_slash c = true) l -> l ≠ [] ->
  split_on slash (join "/" l) = l.
Proof.
  induction 1 as [| c l Hc Hl IH]; [done |]. intros _.
  destruct l as [| c' l]; [by apply split_on_no_slash |].
  change (join "/" (c :: c' :: l)) with (c +:+ "/" +:+ join "/" (c' :: l)).
  rewrite split_on_app_slash by exact Hc. f_equal. by apply IH.
Qed.

Lemma components_join l :
  Forall (fun c => is_component c = true) l -> components (join "/" l) = l.
Proof.
  intros Hl. destruct (decide (l = [])) as [-> | Hne]; [reflexivity |].
  unfold components. rewrite split_on_join; [| | exact Hne].
  - induction Hl as [| c l Hc Hl IH]; [reflexivity |].
    apply andb_prop in Hc as [Hc _]. cbn [List.filter]. rewrite Hc. f_equal.
    destruct l; [reflexivity | by apply IH].
  - eapply Forall_impl; [exact Hl |]. by intros c [_ Hc]%andb_prop.
Qed.

Lemma components_are_components s :
  Forall (fun c => is_component c = true) (components s).
Proof.
  unfold components. pose proof (split_on_pieces s) as H.
  induction H as [| c l Hc Hl IH]; [constructor |].
  cbn [List.filter]. destruct (is_name c) eqn:Hn; [| exact IH].
  constructor; [| exact IH]. unfold is_component. by rewrite Hn, Hc.
Qed.

Lemma root_of_cases s : root_of s = "" \/ root_of s = "/" \/ root_of s = "//".
Proof.
  destruct s as [| a [| b [| c s]]]; cbn; auto.
  - destruct (Ascii.ascii_dec a "/") as [-> | Ha]; [auto |].
    left. destruct a as [[] [] [] [] [] [] [] []]; try reflexivity; by destruct Ha.
  - destruct (Ascii.ascii_dec a "/") as [-> | Ha].
    + destruct (Ascii.ascii_dec b "/") as [-> | Hb]; [auto |].
      right. left.
      destruct b as [[] [] [] [] [] [] [] []]; try reflexivity; by destruct Hb.
    + left. destruct a as [[] [] [] [] [] [] [] []]; try reflexivity; by destruct Ha.
  - destruct (Ascii.ascii_dec a "/") as [-> | Ha].
    + destruct (Ascii.ascii_dec b "/") as [-> | Hb].
      * destruct (Ascii.ascii_dec c "/") as [-> | Hc]; [auto |].
        right. right.
        destruct c as [[] [] [] [] [] [] [] []]; try reflexivity; by destruct Hc.
      * right. left.
        destruct b as [[] [] [] [] [] [] [] []]; try reflexivity; by destruct Hb.
    + left. destruct a as [[] [] [] [] [] [] [] []]; try reflexivity; by destruct Ha.
Qed.

Lemma normal_Path_of s : normal (Path_of s).
Proof. split; [apply root_of_cases | apply components_are_components]. Qed.

Lemma normal_parent p : normal p -> normal (parent p).
Proof.
  intros [Hr Ht]. unfold parent. destruct (tail p) as [| c l] eqn:Hl.
  - split; [exact Hr | by rewrite Hl].
  - split; [exact Hr |]. cbn [tail root].
    rewrite removelast_firstn_len. by apply Forall_take.
Qed.

Lemma normal_shorter r c rparent :
  normal {| root := r; tail := rev (c :: rparent) |} ->
  normal {| root := r; tail := rev rparent |}.
Proof.
  intros [Hr Ht]. split; [exact Hr |]. cbn [tail] in *. cbn [rev] in Ht.
  by apply Forall_app in Ht as [Ht _].
Qed.

(** A component begins with a character that is no slash. *)
Lemma component_head c :
  is_component c = true -> exists x c', c = String x c' /\ Ascii.eqb x slash = false.
Proof.
  unfold is_component, is_name. destruct c as [| x c']; [discriminate |].
  intros [_ Hs]%andb_prop. cbn [no_slash] in Hs.
  apply andb_prop in Hs as [Hx _]. apply negb_true_iff in Hx. eauto.
Qed.

Lemma join_head c l :
  is_component c = true ->
  exists x rest, join "/" (c :: l) = String x rest /\ Ascii.eqb x slash = false.
Proof.
  intros (x & c' & -> & Hx)%component_head.
  destruct l as [| c'' l]; cbn [join]; eauto.
Qed.

Lemma root_of_relative x rest : Ascii.eqb x slash = false -> root_of (String x rest) = "".
Proof.
  intros Hx. destruct x as [[] [] [] [] [] [] [] []]; try reflexivity; discriminate Hx.
Qed.

Lemma root_of_one x rest :
  Ascii.eqb x slash = false -> root_of (String "/" (String x rest)) = "/".
Proof.
  intros Hx. destruct x as [[] [] [] [] [] [] [] []]; try reflexivity; discriminate Hx.
Qed.

Lemma root_of_two x rest :
  Ascii.eqb x slash = false -> root_of (String "/" (String "/" (String x rest))) = "//".
Proof.
  intros Hx. destruct x as [[] [] [] [] [] [] [] []]; try reflexivity; discriminate Hx.
Qed.

(** The string of a path is read back as the same path. *)
Lemma Path_of_str p : normal p -> Path_of (str p) = p.
Proof.
  destruct p as [r l]. intros [Hr Hl]. cbn [root tail] in *.
  unfold Path_of, str. cbn [root tail].
  destruct Hr as [-> | [-> | ->]].
  - destruct l as [| c l]; [reflexivity |].
    change ("" +:+ join "/" (c :: l)) with (join "/" (c :: l)).
    rewrite components_join by exact Hl. f_equal.
    inversion Hl as [| ? ? Hc _]; subst.
    destruct (join_head c l Hc) as (x & rest & -> & Hx). by apply root_of_relative.
  - change ("/" +:+ join "/" l) with (String "/" (join "/" l)).
    assert (Hcs : components (String "/" (join "/" l)) = l).
    { unfold components. cbn [split_on]. change (Ascii.eqb "/" slash) with true.
      cbv iota. cbn [List.filter is_name]. change (String.eqb "" "") with true.
      cbn [negb andb]. by apply components_join. }
    rewrite Hcs. f_equal.
    destruct l as [| c l]; [reflexivity |].
    inversion Hl as [| ? ? Hc _]; subst.
    destruct (join_head c l Hc) as (x & rest & -> & Hx). by apply root_of_one.
  - change ("//" +:+ join "/" l) with (String "/" (String "/" (join "/" l))).
    assert (Hcs : components (String "/" (String "/" (join "/" l))) = l).
    { unfold components. cbn [split_on]. change (Ascii.eqb "/" slash) with true.
      cbv iota. cbn [List.filter is_name]. change (String.eqb "" "") with true.
      cbn [negb andb]. by apply components_join. }
    rewrite Hcs. f_equal.
    destruct l as [| c l]; [reflexivity |].
    inversion Hl as [| ? ? Hc _]; subst.
    destruct (join_head c l Hc) as (x & rest & -> & Hx). by apply root_of_two.
Qed.

Lemma str_not_empty p : normal p -> String.eqb (str p) "" = false.
Proof.
  destruct p as [r l]. intros [Hr Hl]. cbn [root tail] in *. unfold str. cbn [root tail].
  destruct Hr as [-> | [-> | ->]]; [| reflexivity | reflexivity].
  destruct l as [| c l]; [reflexivity |].
  inversion Hl as [| ? ? Hc _]; subst.
  by destruct (join_head c l Hc) as (x & rest & -> & _).
Qed.

(** The kernel walks the string of a path along the tail of the path. *)
Lemma locate_str (cwd : key) (t : tree) (p : Path) :
  normal p -> locate cwd t (str p) = walk t (base_of cwd p) (tail p).
Proof.
  intros Hp. unfold locate. by rewrite str_not_empty, Path_of_str.
Qed.

Lemma resolve_str (cwd : key) (p : Path) : normal p -> resolve cwd (str p) = key_of cwd p.
Proof. intros Hp. unfold resolve. by rewrite Path_of_str. Qed.

(** ** Creation of directories *)

Lemma removelast_snoc (k : key) (c : string) : removelast (k ++ [ c ]) = k.
Proof. apply removelast_last. Qed.

Lemma snoc_not_self (k : key) (c : string) : k ++ [ c ] ≠ k.
Proof.
  intros H. apply (f_equal length) in H. rewrite length_app in H. cbn in H. lia.
Qed.

Lemma is_dir_insert_other (t : tree) (k k' : key) (n : node) :
  k' ≠ k -> is_dir (<[ k := n ]> t) k' = is_dir t k'.
Proof.
  intros Hne. destruct k' as [| a k']; [reflexivity |].
  unfold is_dir, stat. rewrite lookup_insert_ne by congruence. reflexivity.
Qed.

Lemma is_dir_insert_dir (t : tree) (k : key) : is_dir (<[ k := Dir ]> t) k = true.
Proof.
  destruct k as [| a k]; [reflexivity |].
  unfold is_dir, stat. rewrite lookup_insert_eq. reflexivity.
Qed.

Lemma is_dir_insert_mono (t : tree) (k k' : key) :
  is_dir t k' = true -> is_dir (<[ k := Dir ]> t) k' = true.
Proof.
  intros Hd. destruct (decide (k' = k)) as [-> | Hne].
  - apply is_dir_insert_dir.
  - by rewrite is_dir_insert_other.
Qed.

Lemma well_formed_insert_dir (t : tree) (k : key) :
  well_formed t -> is_dir t (removelast k) = true ->
  well_formed (<[ k := Dir ]> t).
Proof.
  intros Hwf Hd k' n Hk'. apply is_dir_insert_mono.
  destruct (decide (k' = k)) as [-> | Hne]; [exact Hd |].
  rewrite lookup_insert_ne in Hk' by congruence. eapply Hwf, Hk'.
Qed.

Lemma well_formed_mkdir (t : tree) (k : key) (c : string) :
  well_formed t -> is_dir t k = true ->
  well_formed (<[ k ++ [ c ] := Dir ]> t).
Proof.
  intros Hwf Hd. apply well_formed_insert_dir; [exact Hwf |].
  by rewrite removelast_snoc.
Qed.

Lemma os_exn_os_error (e : errno) (s : string) : os_error (os_exn e s) = true.
Proof. by destruct e. Qed.

Lemma os_mkdir_os_error (s : string) (cwd : key) (t : tree) (e : exn) :
  os_mkdir s cwd t = inl e -> os_error e = true.
Proof.
  unfold os_mkdir. destruct (has_nul s); [by intros [= <-] |].
  destruct (locate cwd t s) as [e' | k]; [intros [= <-]; apply os_exn_os_error |].
  destruct (negb (names_entry (tail (Path_of s)))); [by intros [= <-] |].
  destruct (stat t k); [by intros [= <-] |].
  destruct (stat t (removelast k)) as [[c |] |]; intros [= <-]; reflexivity.
Qed.

(** What [os.mkdir] has done when it returns. *)
Lemma os_mkdir_inr (p : Path) (cwd : key) (t t' : tree) :
  normal p -> os_mkdir (str p) cwd t = inr t' ->
  has_nul (str p) = false
  /\ tail p ≠ []
  /\ walk t (base_of cwd p) (tail p) = inr (key_of cwd p)
  /\ stat t (key_of cwd p) = None
  /\ is_dir t (removelast (key_of cwd p)) = true
  /\ t' = <[ key_of cwd p := Dir ]> t.
Proof.
  intros Hp. unfold os_mkdir.
  destruct (has_nul (str p)); [discriminate |].
  rewrite locate_str, Path_of_str by exact Hp.
  destruct (walk t (base_of cwd p) (tail p)) as [e | k] eqn:Hw; [discriminate |].
  pose proof (walk_inr _ _ _ _ Hw) as Hk. fold (key_of cwd p) in Hk. subst k.
  destruct (names_entry (tail p)) eqn:Hn; [| discriminate]. cbn [negb].
  destruct (stat t (key_of cwd p)) eqn:Hst; [discriminate |].
  unfold is_dir.
  destruct (stat t (removelast (key_of cwd p))) as [[c |] |]; try discriminate.
  intros [= <-]. repeat split. intros Hnil. by rewrite Hnil in Hn.
Qed.

Lemma path_is_dir_spec (p : Path) (cwd : key) (t : tree) :
  normal p -> tail p ≠ [] ->
  path_is_dir cwd t (str p) = true
  <-> has_nul (str p) = false
      /\ walk t (base_of cwd p) (tail p) = inr (key_of cwd p)
      /\ is_dir t (key_of cwd p) = true.
Proof.
  intros Hp Hne. unfold path_is_dir, os_stat.
  rewrite locate_str, Path_of_str by exact Hp.
  destruct (has_nul (str p)); [split; [discriminate | by intros [? _]] |].
  destruct (walk t (base_of cwd p) (tail p)) as [e | k] eqn:Hw.
  { split; [discriminate | by intros (_ & ? & _)]. }
  pose proof (walk_inr _ _ _ _ Hw) as Hk. fold (key_of cwd p) in Hk. subst k.
  destruct (tail p) as [| c l] eqn:Hl; [done |]. rewrite <- Hl in *.
  unfold is_dir.
  destruct (stat t (key_of cwd p)) as [[content |] |].
  - destruct (wants_dir (str p)); split; try discriminate; by intros (_ & _ & ?).
  - by split.
  - split; [discriminate | by intros (_ & _ & ?)].
Qed.

(** Where [os.path.isdir] holds, every node on the way is a directory. *)
Lemma path_is_dir_passed (p : Path) (cwd : key) (t : tree) (k : key) :
  normal p -> path_is_dir cwd t (str p) = true ->
  In k (passed cwd p) -> is_dir t k = true.
Proof.
  intros Hp Hd Hin. unfold passed in Hin.
  destruct (decide (tail p = [])) as [Hnil | Hne]; [by rewrite Hnil in Hin |].
  apply path_is_dir_spec in Hd as (_ & Hw & Hk); [| exact Hp | exact Hne].
  rewrite (app_removelast_last [] (l := way (base_of cwd p) (tail p))) in Hin.
  - apply in_app_or in Hin as [Hin | [<- | []]].
    + eapply walk_passed; eassumption.
    + by rewrite way_last.
  - destruct (tail p); done.
Qed.

Lemma path_is_dir_mono (p : Path) (cwd : key) (t t' : tree) :
  normal p ->
  (forall k, In k (passed cwd p) -> is_dir t k = true -> is_dir t' k = true) ->
  path_is_dir cwd t (str p) = true -> path_is_dir cwd t' (str p) = true.
Proof.
  intros Hp Hmono Hd.
  destruct (decide (tail p = [])) as [Hnil | Hne].
  { revert Hd. unfold path_is_dir, os_stat.
    rewrite !locate_str, Path_of_str by exact Hp. rewrite Hnil. cbn [walk]. done. }
  pose proof (path_is_dir_passed p cwd t) as Hpassed.
  apply path_is_dir_spec in Hd as Hd'; [| exact Hp | exact Hne].
  destruct Hd' as (Hnul & Hw & Hk).
  apply path_is_dir_spec; [exact Hp | exact Hne |]. split; [exact Hnul |].
  assert (Hlast : In (key_of cwd p) (passed cwd p)) by by apply In_way_last.
  split.
  - apply walk_arrives. intros k' Hk'. apply Hmono.
    + unfold passed.
      rewrite (app_removelast_last [] (l := way (base_of cwd p) (tail p)))
        by (destruct (tail p); done).
      apply in_or_app. by left.
    + eapply walk_passed; eassumption.
  - apply Hmono; [exact Hlast | exact Hk].
Qed.

Lemma path_is_dir_made (p : Path) (cwd : key) (t t' : tree) :
  normal p -> os_mkdir (str p) cwd t = inr t' ->
  path_is_dir cwd t' (str p) = true.
Proof.
  intros Hp Hmk.
  destruct (os_mkdir_inr _ _ _ _ Hp Hmk) as (Hnul & Hne & Hw & _ & _ & ->).
  apply path_is_dir_spec; [exact Hp | exact Hne |]. split; [exact Hnul |]. split.
  - eapply walk_mono; [| exact Hw]. intros k'. apply is_dir_insert_mono.
  - apply is_dir_insert_dir.
Qed.

(** The effect of one [mkdir] that tolerates an existing directory. *)
Lemma mkdir_exist_ok_spec (p : Path) (cwd : key) (t : tree) (res : result unit) (t1 : tree) :
  normal p ->
  mkdir_exist_ok p cwd t = (res, t1) ->
  (forall k : key,
     t1 !! k = t !! k
     \/ (t !! k = None /\ t1 !! k = Some Dir /\ In k (passed cwd p)))
  /\ (well_formed t -> well_formed t1)
  /\ (res = Ret tt -> path_is_dir cwd t1 (str p) = true)
  /\ (forall e, res = Raise e -> os_error e = true).
Proof.
  intros Hp. unfold mkdir_exist_ok.
  destruct (os_mkdir (str p) cwd t) as [e | t'] eqn:Hmk.
  - assert (Hos : os_error e = true) by (eapply os_mkdir_os_error; eassumption).
    destruct (is_OSError e && path_is_dir cwd t (str p)) eqn:Hok.
    + apply andb_prop in Hok as [_ Hd].
      destruct e; intros [= <- <-]; repeat split; auto; try discriminate;
        intros e0 [= <-]; exact Hos.
    + destruct e; intros [= <- <-]; repeat split; auto; try discriminate;
        intros e0 [= <-]; exact Hos.
  - intros [= <- <-].
    destruct (os_mkdir_inr _ _ _ _ Hp Hmk) as (Hnul & Hne & Hw & Hst & Hpar & ->).
    repeat split.
    + intros k. destruct (decide (k = key_of cwd p)) as [-> | Hk].
      * right. repeat split.
        -- destruct (key_of cwd p); [discriminate | exact Hst].
        -- apply lookup_insert_eq.
        -- by apply In_way_last.
      * left. by rewrite lookup_insert_ne by congruence.
    + intros Hwf. by apply well_formed_insert_dir.
    + intros _. eapply path_is_dir_made; [exact Hp |].
      rewrite Hmk. reflexivity.
    + discriminate.
Qed.

Lemma passed_shorter (r : string) (c : string) (rparent : list string) (cwd k : key) :
  In k (passed cwd {| root := r; tail := rev rparent |}) ->
  In k (passed cwd {| root := r; tail := rev (c :: rparent) |}).
Proof.
  unfold passed, base_of. cbn [root tail rev]. rewrite way_app.
  intros H. apply in_or_app. by left.
Qed.

(** What [path.mkdir(parents=True, exist_ok=True)] does: whether it returns
    or raises, it only adds directories, each of them a node passed on the
    way along the path, and keeps the tree well formed; when it returns the
    path names a directory. *)
Lemma mkdir_parents_spec (r : string) (cwd : key) :
  forall (rtail : list string) (t : tree) (res : result unit) (t1 : tree),
    let p := {| root := r; tail := rev rtail |} in
    normal p ->
    mkdir_parents r rtail cwd t = (res, t1) ->
    (forall k : key,
       t1 !! k = t !! k
       \/ (t !! k = None /\ t1 !! k = Some Dir /\ In k (passed cwd p)))
    /\ (well_formed t -> well_formed t1)
    /\ (res = Ret tt -> path_is_dir cwd t1 (str p) = true)
    /\ (forall e, res = Raise e -> os_error e = true).
Proof.
  induction rtail as [| c rparent IH]; intros t res t1 p Hp.
  - intros Hrun. apply (mkdir_exist_ok_spec p cwd t res t1 Hp).
    revert Hrun. unfold mkdir_exist_ok. cbn [mkdir_parents]. fold p.
    by destruct (os_mkdir (str p) cwd t) as [[] |].
  - cbn [mkdir_parents]. fold p.
    destruct (os_mkdir (str p) cwd t) as [e | t'] eqn:Hmk.
    2:{ intros Hrun. apply (mkdir_exist_ok_spec p cwd t res t1 Hp).
        unfold mkdir_exist_ok. by rewrite Hmk. }
    assert (Hcases : (exists s, e = FileNotFoundError s)
                     \/ mkdir_parents r (c :: rparent) cwd t = mkdir_exist_ok p cwd t).
    { unfold mkdir_exist_ok. cbn [mkdir_parents]. fold p. rewrite Hmk.
      destruct e; eauto. }
    destruct Hcases as [[s ->] | Hsame].
    2:{ cbn [mkdir_parents] in Hsame. fold p in Hsame. rewrite Hmk in Hsame.
        rewrite Hsame. apply (mkdir_exist_ok_spec p cwd t res t1 Hp). }
    destruct (mkdir_parents r rparent cwd t) as [[[] | e] t0] eqn:Hrec.
    + destruct (IH t (Ret tt) t0 (normal_shorter _ _ _ Hp) Hrec)
        as (Hadd0 & Hwf0 & _ & _).
      intros Hone.
      destruct (mkdir_exist_ok_spec p cwd t0 res t1 Hp Hone)
        as (Hadd1 & Hwf1 & Hdir1 & Hos1).
      repeat split; [| by auto | exact Hdir1 | exact Hos1].
      intros k. destruct (Hadd1 k) as [H1 | (H1 & H2 & H3)].
      * rewrite H1. destruct (Hadd0 k) as [H0 | (H0 & H0' & H0'')]; [by left |].
        right. repeat split; [exact H0 | exact H0' | by apply passed_shorter].
      * destruct (Hadd0 k) as [H0 | (H0 & H0' & H0'')]; [| congruence].
        right. rewrite <- H0. auto.
    + intros [= <- <-].
      destruct (IH t (Raise e) t0 (normal_shorter _ _ _ Hp) Hrec)
        as (Hadd0 & Hwf0 & _ & Hos0).
      repeat split; [| exact Hwf0 | discriminate | ].
      * intros k. destruct (Hadd0 k) as [H0 | (H0 & H0' & H0'')]; [by left |].
        right. repeat split; [exact H0 | exact H0' | by apply passed_shorter].
      * intros e0 [= <-]. by apply Hos0.
Qed.

(** No directory is ever made at the root. *)
Lemma os_mkdir_root (s : string) (cwd : key) (t t' : tree) :
  os_mkdir s cwd t = inr t' -> t' !! ([] : key) = t !! ([] : key).
Proof.
  unfold os_mkdir. destruct (has_nul s); [discriminate |].
  destruct (locate cwd t s) as [e | k]; [discriminate |].
  destruct (negb (names_entry (tail (Path_of s)))); [discriminate |].
  destruct (stat t k) eqn:Hst; [discriminate |].
  destruct (stat t (removelast k)) as [[c |] |]; try discriminate.
  intros [= <-]. apply lookup_insert_ne. intros ->. discriminate Hst.
Qed.

Lemma mkdir_exist_ok_root (p : Path) (cwd : key) (t : tree) (res : result unit)
  (t1 : tree) :
  mkdir_exist_ok p cwd t = (res, t1) -> t1 !! ([] : key) = t !! ([] : key).
Proof.
  unfold mkdir_exist_ok.
  destruct (os_mkdir (str p) cwd t) as [e | t'] eqn:Hmk.
  - destruct e; try (intros [= <- <-]; reflexivity);
      destruct (_ && _); intros [= <- <-]; reflexivity.
  - intros [= <- <-]. eapply os_mkdir_root; eassumption.
Qed.

Lemma mkdir_parents_root (r : string) (cwd : key) :
  forall (rtail : list string) (t : tree) (res : result unit) (t1 : tree),
    mkdir_parents r rtail cwd t = (res, t1) -> t1 !! ([] : key) = t !! ([] : key).
Proof.
  induction rtail as [| c rparent IH]; intros t res t1; cbn [mkdir_parents].
  - destruct (os_mkdir _ cwd t) as [e | t'] eqn:Hmk.
    + destruct e; try (intros [= <- <-]; reflexivity);
        destruct (_ && _); intros [= <- <-]; reflexivity.
    + intros [= <- <-]. eapply os_mkdir_root; eassumption.
  - destruct (os_mkdir _ cwd t) as [e | t'] eqn:Hmk.
    + destruct e;
        try (destruct (_ && _); intros [= <- <-]; reflexivity).
      destruct (mkdir_parents r rparent cwd t) as [[[] | e] t0] eqn:Hrec.
      * intros Hone. apply mkdir_exist_ok_root in Hone. rewrite Hone. eapply IH, Hrec.
      * intros [= <- <-]. eapply IH, Hrec.
    + intros [= <- <-]. eapply os_mkdir_root; eassumption.
Qed.

Lemma output_directory_made_root (output_icns : string) (cwd : key) (t t1 : tree) :
  output_directory_made output_icns cwd t t1 -> t1 !! ([] : key) = t !! ([] : key).
Proof.
  unfold output_directory_made, Path_mkdir. cbv zeta.
  destruct (mkdir_parents _ _ cwd t) as [res t0] eqn:Hrun. intros [= -> ->].
  eapply mkdir_parents_root, Hrun.
Qed.

Lemma normal_output_directory (output_icns : string) :
  normal (parent (Path_of output_icns)).
Proof. apply normal_parent, normal_Path_of. Qed.

(** The first statement of [generate_icon]. *)
Lemma Path_mkdir_spec (p : Path) (cwd : key) (t : tree) (res : result unit) (t1 : tree)
  (tr : list event) :
  normal p ->
  Path_mkdir p cwd t = (res, t1, tr) ->
  tr = [ EvMkdir (str p) ]
  /\ (forall k : key,
        t1 !! k = t !! k
        \/ (t !! k = None /\ t1 !! k = Some Dir /\ In k (passed cwd p)))
  /\ (well_formed t -> well_formed t1)
  /\ (res = Ret tt -> path_is_dir cwd t1 (str p) = true)
  /\ (forall e, res = Raise e -> os_error e = true).
Proof.
  intros Hp. unfold Path_mkdir.
  destruct (mkdir_parents (root p) (rev (tail p)) cwd t) as [res' t0] eqn:Hrun.
  intros [= <- <- <-]. split; [reflexivity |].
  pose proof (mkdir_parents_spec (root p) cwd (rev (tail p)) t res' t0) as H.
  cbv zeta in H. rewrite rev_involutive in H.
  destruct p as [r l]. cbn [root tail] in *. by apply H.
Qed.

(** ** Running the monad *)

Lemma bind_inv {A B} (m : M A) (f : A -> M B) cwd t r t' tr :
  bind m f cwd t = (r, t', tr) ->
  match m cwd t with
  | (Ret a, t1, tr1) => exists tr2, f a cwd t1 = (r, t', tr2) /\ tr = tr1 ++ tr2
  | (Raise e, t1, tr1) => r = Raise e /\ t' = t1 /\ tr = tr1
  end.
Proof.
  unfold bind. destruct (m cwd t) as [[[a | e] t1] tr1].
  - destruct (f a cwd t1) as [[r2 t2] tr2]. intros [= <- <- <-]. eauto.
  - intros [= <- <- <-]. auto.
Qed.

Lemma resolve_iconset (cwd : key) : resolve cwd iconset_name = iconset_key cwd.
Proof. reflexivity. Qed.

Lemma locate_iconset (cwd : key) (t : tree) :
  locate cwd t iconset_name = inr (iconset_key cwd).
Proof. reflexivity. Qed.

Lemma path_exists_iconset (cwd : key) (t : tree) :
  path_exists cwd t iconset_name = bool_decide (stat t (iconset_key cwd) ≠ None).
Proof.
  unfold path_exists, os_stat. change (has_nul iconset_name) with false. cbv iota.
  rewrite locate_iconset.
  change (tail (Path_of iconset_name)) with [ iconset_name ].
  change (wants_dir iconset_name) with false. cbv iota.
  destruct (stat t (iconset_key cwd)) as [[c |] |]; reflexivity.
Qed.

Lemma rmtree_iconset (cwd : key) (t : tree) :
  is_dir t (iconset_key cwd) = true ->
  shutil_rmtree iconset_name cwd t
  = (Ret tt, remove_subtree (iconset_key cwd) t, [ EvRmtree iconset_name ]).
Proof.
  intros Hd. apply is_dir_spec in Hd. unfold shutil_rmtree.
  rewrite locate_iconset, Hd. reflexivity.
Qed.

Lemma left_by_keeps_dir k t t' k' :
  left_by k t t' -> is_dir t k' = true -> is_dir t' k' = true.
Proof.
  intros [-> | [c ->]] Hd; [exact Hd | by apply write_file_keeps_dir].
Qed.

Lemma left_by_other k t t' k' : left_by k t t' -> k' ≠ k -> t' !! k' = t !! k'.
Proof.
  intros [-> | [c ->]] Hne; [reflexivity | by apply write_file_other].
Qed.

Lemma run_error_os_error (argv : list string) (e : exn) :
  run_error argv e -> os_error e = true.
Proof. destruct 1; [apply os_exn_os_error | reflexivity | reflexivity]. Qed.

Lemma produce_left_by (cwd : key) (argv : list string) (out : option string) (t : tree) :
  left_by (resolve cwd (List.last argv "")) t (produce cwd argv out t).
Proof.
  unfold produce. destruct out as [c |]; [| by left].
  destruct (locate cwd t (List.last argv "")) as [e | k] eqn:Hk; [by left |].
  apply locate_inr in Hk. subst k. right. by exists c.
Qed.

Lemma subprocess_run_inv (env : utilities) (argv : list string) (cwd : key) (t : tree)
  (r : result CompletedProcess) (t' : tree) (tr : list event) :
  subprocess_run env argv cwd t = (r, t', tr) ->
  left_by (resolve cwd (List.last argv "")) t t'
  /\ ((exists e, r = Raise e /\ run_error argv e /\ tr = [ EvRun argv t None ])
      \/ (exists cp, r = Ret cp /\ tr = [ EvRun argv t (Some cp) ])).
Proof.
  unfold subprocess_run. destruct (existsb has_nul argv).
  { intros [= <- <- <-]. split; [by left |]. left. eexists. repeat split. constructor. }
  destruct (env cwd t argv) as [e | cp out | out]; intros [= <- <- <-].
  - split; [by left |]. left. eexists. repeat split. constructor.
  - split; [apply produce_left_by |]. right. by exists cp.
  - split; [apply produce_left_by |]. left. eexists. repeat split. constructor.
Qed.

(** ** The loop *)

Lemma render_loop_sound env input_image cwd l :
  forall t r t' tr,
    is_dir t (iconset_key cwd) = true ->
    for_each l (render env input_image) cwd t = (r, t', tr) ->
    loop_run input_image cwd l t r t' tr.
Proof.
  induction l as [| spec l IH]; intros t r t' tr Hd Hrun.
  - injection Hrun as <- <- <-. constructor.
  - cbn [for_each] in Hrun. apply bind_inv in Hrun. unfold render in Hrun.
    destruct (bind (subprocess_run env (sips_argv input_image spec)) _ cwd t)
      as [[r1 t1] tr1] eqn:Hbody.
    apply bind_inv in Hbody.
    destruct (subprocess_run env (sips_argv input_image spec) cwd t)
      as [[r0 t0] tr0] eqn:Hsub.
    apply subprocess_run_inv in Hsub.
    destruct Hsub as (Hleft & [(e & -> & He & ->) | (cp & -> & ->)]).
    + destruct Hbody as (-> & -> & ->). destruct Hrun as (-> & -> & ->).
      by constructor.
    + destruct Hbody as (tr2 & Hbody & ->).
      assert (Hd0 : is_dir t0 (iconset_key cwd) = true)
        by (eapply left_by_keeps_dir; eassumption).
      destruct (returncode cp =? 0)%Z eqn:Hrc; cbn [negb] in Hbody.
      * injection Hbody as <- <- <-. cbn [app] in Hrun.
        destruct Hrun as (tr3 & Hrun & ->).
        apply Z.eqb_eq in Hrc. cbn [app].
        eapply loop_next; [exact Hrc | exact Hleft | ].
        apply IH; assumption.
      * apply bind_inv in Hbody. cbn [print] in Hbody.
        destruct Hbody as (tr3 & Hbody & ->).
        apply bind_inv in Hbody. rewrite (rmtree_iconset _ _ Hd0) in Hbody.
        destruct Hbody as (tr4 & Hbody & ->). injection Hbody as <- <- <-.
        cbn [app] in Hrun. destruct Hrun as (tr5 & Hrun & ->).
        injection Hrun as <- <- <-. cbn [app].
        apply Z.eqb_neq in Hrc. eapply loop_failed; eassumption.
Qed.

(** ** The whole function *)

Lemma makedirs_iconset_inv (cwd : key) (t : tree) (r : result unit) (t' : tree)
  (tr : list event) :
  os_makedirs iconset_name cwd t = (r, t', tr) ->
  tr = [ EvMakedirs iconset_name ]
  /\ ((exists e, r = Raise e /\ os_error e = true /\ t' = t)
      \/ (r = Ret tt /\ stat t (iconset_key cwd) = None /\ is_dir t cwd = true
          /\ t' = <[ iconset_key cwd := Dir ]> t)).
Proof.
  unfold os_makedirs.
  destruct (os_mkdir iconset_name cwd t) as [e | t0] eqn:Hmk; intros [= <- <- <-];
    (split; [reflexivity |]).
  - left. exists e. repeat split. eapply os_mkdir_os_error; eassumption.
  - right. revert Hmk. unfold os_mkdir.
    change (has_nul iconset_name) with false. cbv iota.
    rewrite locate_iconset.
    change (negb (names_entry (tail (Path_of iconset_name)))) with false. cbv iota.
    unfold iconset_key at 2. rewrite removelast_snoc. unfold is_dir.
    destruct (stat t (iconset_key cwd)); [discriminate |].
    destruct (stat t cwd) as [[c |] |]; try discriminate.
    by intros [= <-].
Qed.

Lemma remove_old_iconset (cwd : key) (t1 : tree) :
  let old := path_exists cwd t1 iconset_name in
  match (if old then shutil_rmtree iconset_name else ret tt) cwd t1 with
  | (Ret _, t2, tr2) =>
      t2 = (if old then remove_subtree (iconset_key cwd) t1 else t1)
      /\ tr2 = (if old then [ EvRmtree iconset_name ] else [])
  | (Raise e, t2, tr2) =>
      tr2 = [ EvRmtree iconset_name ] /\ os_error e = true /\ t2 = t1
  end.
Proof.
  intros old. subst old. destruct (path_exists cwd t1 iconset_name).
  - unfold shutil_rmtree. rewrite locate_iconset.
    destruct (stat t1 (iconset_key cwd)) as [[c |] |]; auto.
  - split; reflexivity.
Qed.

Lemma iconset_key_not_cwd (cwd : key) : cwd ≠ iconset_key cwd.
Proof.
  unfold iconset_key. intros H. apply (f_equal length) in H.
  rewrite length_app in H. simpl in H. lia.
Qed.

Lemma loop_run_completed_keeps_dir input_image cwd l t t' tr k :
  loop_run input_image cwd l t (Ret None) t' tr ->
  is_dir t k = true -> is_dir t' k = true.
Proof.
  intros Hloop. remember (Ret None) as rl eqn:Hrl.
  induction Hloop as [t | spec l t cp t1 r t' tr Hrc Hleft Hloop IH
                      | spec l t cp t1 Hrc Hleft | spec l t e t1 He Hleft];
    intros Hd; try discriminate; [exact Hd |].
  apply IH; [exact Hrl |]. eapply left_by_keeps_dir; eassumption.
Qed.

Lemma generate_icon_sound env input_image output_icns cwd t r t' tr :
  generate_icon env input_image output_icns cwd t = (r, t', tr) ->
  build_run input_image output_icns cwd t r t' tr.
Proof.
  intros Hrun. unfold generate_icon in Hrun.
  apply bind_inv in Hrun.
  destruct (Path_mkdir (parent (Path_of output_icns)) cwd t) as [[r0 t1] tr0] eqn:Hmk.
  pose proof (Path_mkdir_spec _ _ _ _ _ _ (normal_output_directory output_icns) Hmk)
    as (-> & _ & _ & _ & Hos0).
  destruct r0 as [[] | e0].
  2:{ destruct Hrun as (-> & -> & ->). apply build_unmade; [by apply Hos0 | exact Hmk]. }
  assert (Hmade : output_directory_made output_icns cwd t t1) by exact Hmk.
  clear Hmk Hos0.
  destruct Hrun as (tr2 & Hrun & ->).
  apply bind_inv in Hrun. cbn [os_path_exists] in Hrun.
  destruct Hrun as (tr3 & Hrun & ->).
  apply bind_inv in Hrun.
  pose proof (remove_old_iconset cwd t1) as Hold. cbv zeta in Hold.
  set (old := path_exists cwd t1 iconset_name) in *.
  destruct ((if old then shutil_rmtree iconset_name else ret tt) cwd t1)
    as [[[[] | e] t2] tr4].
  2:{ destruct Hrun as (-> & -> & ->). destruct Hold as (-> & Hos & ->).
      eapply build_unprepared; [exact Hmade | exact Hos | by left | by left]. }
  destruct Hold as (-> & ->). destruct Hrun as (tr5 & Hrun & ->).
  apply bind_inv in Hrun.
  destruct (os_makedirs iconset_name cwd _) as [[r3 t3] tr6] eqn:Hmake.
  apply makedirs_iconset_inv in Hmake.
  destruct Hmake as (-> & [(e & -> & Hos & ->) | (-> & Habsent & Hcwd & Ht3)]).
  { destruct Hrun as (-> & -> & ->).
    eapply build_unprepared; [exact Hmade | exact Hos | |].
    - unfold unprepared. destruct old; cbn; auto.
    - destruct old; auto. }
  fold (prepared_tree cwd old t1) in Ht3. subst t3.
  assert (Hcwd' : is_dir (prepared_tree cwd old t1) cwd = true).
  { unfold prepared_tree. rewrite is_dir_insert_other by apply iconset_key_not_cwd.
    exact Hcwd. }
  assert (Hdir : is_dir (prepared_tree cwd old t1) (iconset_key cwd) = true)
    by apply is_dir_insert_dir.
  destruct Hrun as (tr7 & Hrun & ->).
  apply bind_inv in Hrun. cbn [print] in Hrun. destruct Hrun as (tr8 & Hrun & ->).
  apply bind_inv in Hrun. cbn [print] in Hrun. destruct Hrun as (tr9 & Hrun & ->).
  apply bind_inv in Hrun. cbn [print] in Hrun. destruct Hrun as (tr10 & Hrun & ->).
  apply bind_inv in Hrun.
  destruct (for_each icon_sizes (render env input_image) cwd _)
    as [[rl t4] trl] eqn:Hloop.
  apply render_loop_sound in Hloop; [| exact Hdir].
  assert (Htrace : forall rest,
    [ EvMkdir (str (parent (Path_of output_icns))) ] ++ [] ++
      (if old then [ EvRmtree iconset_name ] else []) ++ [ EvMakedirs iconset_name ] ++
      [ EvPrint "🎨 Generating app icon..." ] ++
      [ EvPrint ("📥 Input image: " +:+ input_image) ] ++
      [ EvPrint "📐 Generating icon sizes..." ] ++ rest
    = prepared input_image output_icns old ++ rest).
  { intros rest. unfold prepared. destruct old; reflexivity. }
  destruct rl as [[answer |] | e].
  - destruct Hrun as (tr11 & Hrun & ->). injection Hrun as <- <- <-.
    rewrite app_nil_r, Htrace. eapply build_rendition_failed; eassumption.
  - destruct Hrun as (tr11 & Hrun & ->).
    apply bind_inv in Hrun. cbn [print] in Hrun. destruct Hrun as (tr12 & Hrun & ->).
    apply bind_inv in Hrun. cbn [print] in Hrun. destruct Hrun as (tr13 & Hrun & ->).
    apply bind_inv in Hrun.
    destruct (subprocess_run env (iconutil_argv (Path_of output_icns)) cwd t4)
      as [[r5 t5] tr14] eqn:Hsub.
    apply subprocess_run_inv in Hsub.
    destruct Hsub as (Hleft & [(e & -> & He & ->) | (cp & -> & ->)]).
    + destruct Hrun as (-> & -> & ->). rewrite Htrace.
      eapply build_iconutil_crashed; eassumption.
    + destruct Hrun as (tr15 & Hrun & ->).
      assert (Hd4 : is_dir t4 (iconset_key cwd) = true)
        by (eapply loop_run_completed_keeps_dir; eassumption).
      apply bind_inv in Hrun.
      rewrite rmtree_iconset in Hrun
        by (eapply left_by_keeps_dir; eassumption).
      destruct Hrun as (tr16 & Hrun & ->).
      rewrite Htrace.
      assert (Hend : r = Ret (returncode cp =? 0)%Z
                     /\ t' = remove_subtree (iconset_key cwd) t5
                     /\ [ EvPrint "✅ Generated all icon sizes" ] ++
                        [ EvPrint "🔨 Generating .icns file..." ] ++
                        [ EvRun (iconutil_argv (Path_of output_icns)) t4 (Some cp) ] ++
                        [ EvRmtree iconset_name ] ++ tr16
                        = compiled output_icns t4 cp).
      { unfold compiled. destruct (returncode cp =? 0)%Z; cbn [negb] in Hrun |- *.
        - apply bind_inv in Hrun. cbn [print] in Hrun.
          destruct Hrun as (tr17 & Hrun & ->).
          apply bind_inv in Hrun. cbn [print] in Hrun.
          destruct Hrun as (tr18 & Hrun & ->).
          injection Hrun as <- <- <-. auto.
        - apply bind_inv in Hrun. cbn [print] in Hrun.
          destruct Hrun as (tr17 & Hrun & ->).
          injection Hrun as <- <- <-. auto. }
      destruct Hend as (-> & -> & ->).
      eapply build_compiled; eassumption.
  - destruct Hrun as (-> & -> & ->). rewrite Htrace.
    eapply build_sips_crashed; eassumption.
Qed.

(** ** Traces of the loop *)

Lemma rendered_invocations input_image specs tr :
  rendered input_image specs tr ->
  invocations tr = List.map (sips_argv input_image) specs.
Proof.
  induction 1 as [| spec e specs tr (before & cp & -> & Hrc) _ IH]; [reflexivity |].
  cbn. f_equal. exact IH.
Qed.

Lemma rendered_statuses input_image specs tr :
  rendered input_image specs tr -> statuses tr = replicate (length specs) 0%Z.
Proof.
  induction 1 as [| spec e specs tr (before & cp & -> & Hrc) _ IH]; [reflexivity |].
  cbn. rewrite Hrc. f_equal. exact IH.
Qed.

Lemma rendered_printed input_image specs tr :
  rendered input_image specs tr -> printed tr = [].
Proof.
  induction 1 as [| spec e specs tr (before & cp & -> & Hrc) _ IH]; [reflexivity |].
  exact IH.
Qed.

Lemma rendered_In input_image specs tr e :
  rendered input_image specs tr -> In e tr ->
  exists spec before cp,
    In spec specs /\ e = EvRun (sips_argv input_image spec) before (Some cp)
    /\ returncode cp = 0%Z.
Proof.
  induction 1 as [| spec e' specs tr (before & cp & -> & Hrc) _ IH]; [intros [] |].
  intros [<- | Hin].
  - exists spec, before, cp. repeat split; [by left | exact Hrc].
  - destruct (IH Hin) as (spec' & before' & cp' & Hspec & -> & Hrc').
    exists spec', before', cp'. repeat split; [by right | exact Hrc'].
Qed.

Lemma loop_run_split input_image cwd l t r t' tr :
  loop_run input_image cwd l t r t' tr ->
  exists l1 l2 oks ending,
    l = l1 ++ l2 /\ tr = oks ++ ending
    /\ rendered input_image l1 oks /\ loop_ending input_image l2 r ending.
Proof.
  induction 1 as [t | spec l t cp t1 r t' tr Hrc Hleft Hloop IH
                  | spec l t cp t1 Hrc Hleft | spec l t e t1 He Hleft].
  - exists [], [], [], []. repeat split; constructor.
  - destruct IH as (l1 & l2 & oks & ending & -> & -> & Hoks & Hend).
    exists (spec :: l1), l2, (EvRun (sips_argv input_image spec) t (Some cp) :: oks), ending.
    repeat split; [| exact Hend]. constructor; [eauto | exact Hoks].
  - eexists [], (spec :: l), [], _. repeat split; [constructor |].
    by apply ending_failed.
  - eexists [], (spec :: l), [], _. repeat split; [constructor |].
    by apply ending_crashed.
Qed.

Lemma loop_run_first input_image cwd spec l t r t' tr :
  loop_run input_image cwd (spec :: l) t r t' tr ->
  exists completed rest, tr = EvRun (sips_argv input_image spec) t completed :: rest.
Proof. inversion 1; subst; eauto. Qed.

(** ** Trees of the loop *)

Lemma remove_subtree_keeps_dir (k : key) (t : tree) (k' : key) :
  ¬ (k `prefix_of` k') -> is_dir (remove_subtree k t) k' = is_dir t k'.
Proof.
  intros Hout. destruct k' as [| a k']; [reflexivity |].
  unfold is_dir, stat. rewrite remove_subtree_outside by exact Hout. reflexivity.
Qed.

Lemma loop_run_keeps_dir input_image cwd l t r t' tr (k : key) :
  loop_run input_image cwd l t r t' tr ->
  ¬ (iconset_key cwd `prefix_of` k) ->
  is_dir t k = true -> is_dir t' k = true.
Proof.
  intros Hloop Hout.
  induction Hloop as [t | spec l t cp t1 r t' tr Hrc Hleft Hloop IH
                      | spec l t cp t1 Hrc Hleft | spec l t e t1 He Hleft]; intros Hd.
  - exact Hd.
  - apply IH. eapply left_by_keeps_dir; eassumption.
  - rewrite remove_subtree_keeps_dir by exact Hout.
    eapply left_by_keeps_dir; eassumption.
  - eapply left_by_keeps_dir; eassumption.
Qed.

Lemma loop_run_failed_removed input_image cwd l t answer t' tr (k : key) :
  loop_run input_image cwd l t (Ret (Some answer)) t' tr ->
  iconset_key cwd `prefix_of` k -> t' !! k = None.
Proof.
  intros Hloop Hin. remember (Ret (Some answer)) as r eqn:Hr.
  induction Hloop as [t | spec l t cp t1 r t' tr Hrc Hleft Hloop IH
                      | spec l t cp t1 Hrc Hleft | spec l t e t1 He Hleft]; try discriminate.
  - by apply IH.
  - by apply remove_subtree_inside.
Qed.

(** Every rendition of the table is written inside the working directory. *)
Lemma rendition_key_inside cwd spec :
  In spec icon_sizes -> rendition_key cwd spec = iconset_key cwd ++ [ spec.2 ].
Proof.
  cbn [In icon_sizes].
  intros H. repeat (destruct H as [<- | H]; [reflexivity |]). destruct H.
Qed.

Lemma loop_run_frame input_image cwd l t r t' tr (k : key) :
  loop_run input_image cwd l t r t' tr ->
  (forall spec, In spec l -> iconset_key cwd `prefix_of` rendition_key cwd spec) ->
  ¬ (iconset_key cwd `prefix_of` k) ->
  t' !! k = t !! k.
Proof.
  intros Hloop Hl Hout.
  induction Hloop as [t | spec l t cp t1 r t' tr Hrc Hleft Hloop IH
                      | spec l t cp t1 Hrc Hleft | spec l t e t1 He Hleft].
  - reflexivity.
  - rewrite IH by (intros s Hs; apply Hl; by right).
    eapply left_by_other; [exact Hleft |]. intros ->. apply Hout, Hl. by left.
  - rewrite remove_subtree_outside by exact Hout.
    eapply left_by_other; [exact Hleft |]. intros ->. apply Hout, Hl. by left.
  - eapply left_by_other; [exact Hleft |]. intros ->. apply Hout, Hl. by left.
Qed.

Lemma icon_sizes_inside cwd spec :
  In spec icon_sizes -> iconset_key cwd `prefix_of` rendition_key cwd spec.
Proof. intros H. rewrite (rendition_key_inside _ _ H). by eexists. Qed.

(** ** The table of sizes *)

(** C3: the table has ten entries, with pixel sizes 16, 32, 32, 64, 128, 256,
    256, 512, 512, 1024 in this order, and each file name is the name of the
    nominal size, with the ["@2x"] suffix where the picture has twice the
    nominal size. *)
Theorem icon_sizes_table :
  length icon_sizes = 10%nat
  /\ List.map fst icon_sizes
     = [ 16; 32; 32; 64; 128; 256; 256; 512; 512; 1024 ]%Z
  /\ List.map snd icon_sizes
     = [ "icon_16x16.png"; "icon_16x16@2x.png";
         "icon_32x32.png"; "icon_32x32@2x.png";
         "icon_128x128.png"; "icon_128x128@2x.png";
         "icon_256x256.png"; "icon_256x256@2x.png";
         "icon_512x512.png"; "icon_512x512@2x.png" ]
  /\ icon_sizes
     = List.map (fun '(n, retina) => (icon_pixels n retina, icon_filename n retina))
         [ (16, false); (16, true); (32, false); (32, true); (128, false);
           (128, true); (256, false); (256, true); (512, false); (512, true) ]%Z.
Proof. repeat split; vm_compute; reflexivity. Qed.

Lemma sips_argv_NoDup input_image :
  NoDup (List.map (sips_argv input_image) icon_sizes).
Proof.
  apply (NoDup_fmap_1 (fun argv => List.last argv "")).
  apply (bool_decide_unpack _). vm_compute. reflexivity.
Qed.

Lemma rendition_key_NoDup (cwd : key) : NoDup (List.map (rendition_key cwd) icon_sizes).
Proof.
  assert (H : List.map (rendition_key cwd) icon_sizes
              = List.map (fun spec : Z * string => iconset_key cwd ++ [ spec.2 ]) icon_sizes)
    by reflexivity.
  rewrite H. clear H.
  apply (NoDup_fmap_1 (fun k : key => List.last k "")).
  rewrite <- list_fmap_compose.
  assert (H : ((fun k : key => List.last k "") ∘
               (fun spec : Z * string => iconset_key cwd ++ [ spec.2 ])) <$> icon_sizes
              = snd <$> icon_sizes).
  { apply list_fmap_ext. intros _ spec _. unfold compose. apply last_last. }
  rewrite H. apply (bool_decide_unpack _). vm_compute. reflexivity.
Qed.

(** ** Traces of the whole function *)

Lemma loop_ending_done input_image l tr :
  loop_ending input_image l (Ret None) tr -> l = [] /\ tr = [].
Proof. inversion 1. auto. Qed.

Lemma build_run_shape (input_image output_icns : string) (cwd : key) (t : tree)
  (r : result bool) (t' : tree) (tr : list event) :
  build_run input_image output_icns cwd t r t' tr ->
  trace_shape input_image output_icns r tr.
Proof.
  destruct 1 as [e t' Hos Hmk
                | t1 e t' tr Hmade Hos Htr Ht
                | t1 e t' trl old Hmade Hcwd Hloop
                | t1 answer t' trl old Hmade Hcwd Hloop
                | t1 t4 trl e t5 old Hmade Hcwd Hloop He Hleft
                | t1 t4 trl cp t5 old Hmade Hcwd Hloop Hleft].
  - apply shape_unprepared; [exact Hos | by left].
  - apply shape_unprepared; [exact Hos | by right].
  - apply loop_run_split in Hloop.
    destruct Hloop as (l1 & l2 & oks & ending & Hl & -> & Hoks & Hend).
    inversion Hend; subst. eapply shape_sips_crashed; eassumption.
  - apply loop_run_split in Hloop.
    destruct Hloop as (l1 & l2 & oks & ending & Hl & -> & Hoks & Hend).
    inversion Hend; subst. eapply shape_rendition_failed; eassumption.
  - apply loop_run_split in Hloop.
    destruct Hloop as (l1 & l2 & oks & ending & Hl & -> & Hoks & Hend).
    apply loop_ending_done in Hend. destruct Hend as (-> & ->).
    rewrite !app_nil_r in *. subst l1. by apply shape_iconutil_crashed.
  - apply loop_run_split in Hloop.
    destruct Hloop as (l1 & l2 & oks & ending & Hl & -> & Hoks & Hend).
    apply loop_ending_done in Hend. destruct Hend as (-> & ->).
    rewrite !app_nil_r in *. subst l1. by apply shape_compiled.
Qed.

Lemma invocations_app tr1 tr2 :
  invocations (tr1 ++ tr2) = invocations tr1 ++ invocations tr2.
Proof. apply omap_app. Qed.

Lemma statuses_app tr1 tr2 : statuses (tr1 ++ tr2) = statuses tr1 ++ statuses tr2.
Proof. apply omap_app. Qed.

Lemma invocations_prepared input_image output_icns old :
  invocations (prepared input_image output_icns old) = [].
Proof. destruct old; reflexivity. Qed.

Lemma statuses_prepared input_image output_icns old :
  statuses (prepared input_image output_icns old) = [].
Proof. destruct old; reflexivity. Qed.

Lemma invocations_compiled output_icns before cp :
  invocations (compiled output_icns before cp)
  = [ iconutil_argv (Path_of output_icns) ].
Proof. unfold compiled. destruct (returncode cp =? 0)%Z; reflexivity. Qed.

Lemma statuses_compiled output_icns before cp :
  statuses (compiled output_icns before cp) = [ returncode cp ].
Proof. unfold compiled. destruct (returncode cp =? 0)%Z; reflexivity. Qed.

Lemma not_run_in_prepared input_image output_icns old argv before completed :
  ¬ In (EvRun argv before completed) (prepared input_image output_icns old).
Proof. destruct old; cbn; intuition discriminate. Qed.

Lemma unprepared_quiet output_icns tr :
  In tr (unprepared output_icns) ->
  invocations tr = [] /\ statuses tr = [] /\ printed tr = []
  /\ exists rest, tr = EvMkdir (str (parent (Path_of output_icns))) :: rest.
Proof.
  cbn. intros H.
  repeat (destruct H as [<- | H]; [repeat split; eauto |]). destruct H.
Qed.

Lemma icon_sizes_split_length (l1 : list (Z * string)) spec l2 :
  icon_sizes = l1 ++ spec :: l2 -> (length l1 < 10)%nat.
Proof.
  intros H. apply (f_equal length) in H. rewrite length_app in H. cbn in H. lia.
Qed.

(** The exit statuses a call has seen, by the way it ends. *)
Lemma trace_shape_statuses input_image output_icns r tr :
  trace_shape input_image output_icns r tr ->
  match r with
  | Ret true => statuses tr = replicate 11 0%Z
  | Ret false =>
      exists n z, (n <= 10)%nat /\ z ≠ 0%Z /\ statuses tr = replicate n 0%Z ++ [ z ]
  | Raise _ => exists n, (n <= 10)%nat /\ statuses tr = replicate n 0%Z
  end.
Proof.
  destruct 1 as [e tr Hos Htr
                | old l1 spec l2 oks before e Hl Hoks He
                | old l1 spec l2 oks before cp Hl Hoks Hrc
                | old oks before e Hoks He
                | old oks before cp Hoks].
  - apply unprepared_quiet in Htr. destruct Htr as (_ & -> & _).
    exists 0%nat. split; [lia | reflexivity].
  - rewrite !statuses_app, statuses_prepared, (rendered_statuses _ _ _ Hoks).
    apply icon_sizes_split_length in Hl.
    exists (length l1). split; [lia |]. cbn. by rewrite app_nil_r.
  - rewrite !statuses_app, statuses_prepared, (rendered_statuses _ _ _ Hoks).
    apply icon_sizes_split_length in Hl.
    exists (length l1), (returncode cp). repeat split; [lia | exact Hrc].
  - rewrite !statuses_app, statuses_prepared, (rendered_statuses _ _ _ Hoks).
    exists 10%nat. split; [lia |]. cbn. reflexivity.
  - rewrite !statuses_app, statuses_prepared, (rendered_statuses _ _ _ Hoks).
    unfold compiled. destruct (returncode cp =? 0)%Z eqn:Hrc.
    + apply Z.eqb_eq in Hrc. cbn. rewrite Hrc. reflexivity.
    + apply Z.eqb_neq in Hrc. exists 10%nat, (returncode cp).
      split; [lia | split; [exact Hrc | reflexivity]].
Qed.

Lemma nonzero_not_in_zeros (n m : nat) (z : Z) :
  z ≠ 0%Z -> replicate n 0%Z ++ [ z ] ≠ replicate m 0%Z.
Proof.
  intros Hz Heq.
  assert (Hin : z ∈ replicate m 0%Z).
  { rewrite <- Heq. apply elem_of_app. right. by apply list_elem_of_singleton. }
  apply elem_of_replicate in Hin. tauto.
Qed.

Lemma zeros_inj (n m : nat) : replicate n 0%Z = replicate m 0%Z -> n = m.
Proof.
  intros H. apply (f_equal length) in H. by rewrite !length_replicate in H.
Qed.

(** The answer of a call is a function of the exit statuses it has seen. *)
Lemma trace_shape_answer i1 o1 r1 tr1 i2 o2 r2 tr2 answer :
  trace_shape i1 o1 r1 tr1 -> trace_shape i2 o2 r2 tr2 ->
  statuses tr1 = statuses tr2 ->
  r1 = Ret answer -> r2 = Ret answer.
Proof.
  intros H1 H2 Heq ->.
  apply trace_shape_statuses in H1, H2. rewrite Heq in H1.
  destruct answer.
  - rewrite H1 in H2. destruct r2 as [[] | e]; [reflexivity | |].
    + destruct H2 as (n & z & _ & Hz & H2). symmetry in H2.
      by apply nonzero_not_in_zeros in H2.
    + destruct H2 as (n & Hn & H2). apply zeros_inj in H2. lia.
  - destruct H1 as (n & z & Hn & Hz & H1). rewrite H1 in H2.
    destruct r2 as [[] | e]; [| reflexivity |].
    + by apply nonzero_not_in_zeros in H2.
    + destruct H2 as (m & _ & H2). by apply nonzero_not_in_zeros in H2.
Qed.

Lemma trace_shape_invocations_of_success input_image output_icns tr :
  trace_shape input_image output_icns (Ret true) tr ->
  invocations tr
  = List.map (sips_argv input_image) icon_sizes
    ++ [ iconutil_argv (Path_of output_icns) ].
Proof.
  inversion 1 as [| | | | old oks before cp Hoks Hr Htr].
  rewrite !invocations_app, invocations_prepared, (rendered_invocations _ _ _ Hoks).
  rewrite invocations_compiled. reflexivity.
Qed.


(** ** Locating an invocation in a trace *)

Lemma In_invocations argv before completed tr :
  In (EvRun argv before completed) tr -> In argv (invocations tr).
Proof.
  intros Hin. apply list_elem_of_In. apply list_elem_of_In in Hin.
  unfold invocations. apply list_elem_of_omap. eexists. split; [exact Hin | reflexivity].
Qed.

Lemma sips_is_not_iconutil input_image spec output_path :
  sips_argv input_image spec ≠ iconutil_argv output_path.
Proof. unfold sips_argv, iconutil_argv. intros [=]. Qed.

Lemma not_failed_in_rendered input_image specs tr argv before cp :
  rendered input_image specs tr ->
  In (EvRun argv before (Some cp)) tr ->
  returncode cp = 0%Z /\ exists spec, argv = sips_argv input_image spec.
Proof.
  intros Hoks Hin.
  destruct (rendered_In _ _ _ _ Hoks Hin) as (spec & b & cp' & _ & [= -> -> ->] & Hrc).
  eauto.
Qed.

Ltac in_trace H :=
  repeat match type of H with
         | In _ (_ ++ _) => apply in_app_or in H; destruct H as [H | H]
         | In _ (prepared _ _ _) => by apply not_run_in_prepared in H
         | In _ (_ :: _) => destruct H as [H | H]
         | In _ [] => destruct H
         | EvPrint _ = EvRun _ _ _ => discriminate H
         | EvRmtree _ = EvRun _ _ _ => discriminate H
         | EvRun _ _ None = EvRun _ _ (Some _) => discriminate H
         end.

(** A rendition that failed is the last invocation of the call. *)
Lemma trace_shape_failed_rendition input_image output_icns r tr argv before cp :
  trace_shape input_image output_icns r tr ->
  In (EvRun argv before (Some cp)) tr ->
  (exists spec, argv = sips_argv input_image spec) ->
  returncode cp ≠ 0%Z ->
  exists old l1 spec l2 oks,
    icon_sizes = l1 ++ spec :: l2 /\ argv = sips_argv input_image spec
    /\ rendered input_image l1 oks /\ r = Ret false
    /\ tr = prepared input_image output_icns old ++ oks
            ++ [ EvRun argv before (Some cp);
                 EvPrint (failed_to_generate spec.2 (stderr cp));
                 EvRmtree iconset_name ].
Proof.
  intros Hshape Hin (spec0 & Hargv) Hrc.
  destruct Hshape as [e tr Hos Htr
                     | old l1 spec l2 oks before' e Hl Hoks He
                     | old l1 spec l2 oks before' cp' Hl Hoks Hrc'
                     | old oks before' e Hoks He
                     | old oks before' cp' Hoks].
  - apply In_invocations in Hin. apply unprepared_quiet in Htr.
    destruct Htr as (Hnone & _). rewrite Hnone in Hin. destruct Hin.
  - in_trace Hin. apply (not_failed_in_rendered _ _ _ _ _ _ Hoks) in Hin. tauto.
  - in_trace Hin.
    + apply (not_failed_in_rendered _ _ _ _ _ _ Hoks) in Hin. tauto.
    + injection Hin as <- <- <-. by exists old, l1, spec, l2, oks.
  - in_trace Hin. apply (not_failed_in_rendered _ _ _ _ _ _ Hoks) in Hin. tauto.
  - in_trace Hin.
    + apply (not_failed_in_rendered _ _ _ _ _ _ Hoks) in Hin. tauto.
    + unfold compiled in Hin. destruct (negb (returncode cp' =? 0)%Z); in_trace Hin;
        injection Hin as Hargv' _ _; rewrite Hargv in Hargv';
        symmetry in Hargv'; by apply sips_is_not_iconutil in Hargv'.
Qed.

(** A completed compilation follows ten successful renditions. *)
Lemma trace_shape_compilation input_image output_icns r tr before cp :
  trace_shape input_image output_icns r tr ->
  In (EvRun (iconutil_argv (Path_of output_icns)) before (Some cp)) tr ->
  exists old oks,
    rendered input_image icon_sizes oks /\ r = Ret (returncode cp =? 0)%Z
    /\ tr = prepared input_image output_icns old ++ oks
            ++ compiled output_icns before cp.
Proof.
  intros Hshape Hin.
  assert (Hoks_no : forall specs oks,
    rendered input_image specs oks ->
    ¬ In (EvRun (iconutil_argv (Path_of output_icns)) before (Some cp)) oks).
  { intros specs oks Hoks Hin'.
    apply (not_failed_in_rendered _ _ _ _ _ _ Hoks) in Hin'.
    destruct Hin' as (_ & spec & Heq). symmetry in Heq.
    by apply sips_is_not_iconutil in Heq. }
  destruct Hshape as [e tr Hos Htr
                     | old l1 spec l2 oks before' e Hl Hoks He
                     | old l1 spec l2 oks before' cp' Hl Hoks Hrc'
                     | old oks before' e Hoks He
                     | old oks before' cp' Hoks].
  - apply In_invocations in Hin. apply unprepared_quiet in Htr.
    destruct Htr as (Hnone & _). rewrite Hnone in Hin. destruct Hin.
  - in_trace Hin. by apply Hoks_no in Hoks.
  - in_trace Hin; [by apply Hoks_no in Hoks |].
    unfold sips_argv, iconutil_argv in Hin. discriminate Hin.
  - in_trace Hin. by apply Hoks_no in Hoks.
  - in_trace Hin; [by apply Hoks_no in Hoks |].
    assert (Heq : before' = before /\ cp' = cp).
    { unfold compiled in Hin. destruct (negb (returncode cp' =? 0)%Z); in_trace Hin;
        by injection Hin as <- <-. }
    destruct Heq as (-> & ->). by exists old, oks.
Qed.

(** ** Absent directories *)

Lemma well_formed_absent_below (t : tree) (k : key) :
  well_formed t -> stat t k = None ->
  forall k', k `prefix_of` k' -> t !! k' = None.
Proof.
  intros Hwf Hk k' [s ->].
  assert (Hne : k ≠ []) by (intros ->; discriminate).
  induction s as [| x s IH] using rev_ind.
  - rewrite app_nil_r. by rewrite <- stat_nonempty.
  - destruct (t !! (k ++ s ++ [ x ])) as [n |] eqn:Hn; [| reflexivity].
    apply Hwf in Hn. rewrite app_assoc, removelast_snoc in Hn.
    apply is_dir_spec in Hn. rewrite stat_nonempty in Hn by (destruct k; done).
    congruence.
Qed.

(** ** The tree the loop starts from *)

Lemma prepared_tree_outside (cwd : key) (old : bool) (t1 : tree) (k : key) :
  ¬ (iconset_key cwd `prefix_of` k) ->
  prepared_tree cwd old t1 !! k = t1 !! k.
Proof.
  intros Hout. unfold prepared_tree.
  rewrite lookup_insert_ne by (intros <-; by apply Hout).
  destruct old; [by apply remove_subtree_outside | reflexivity].
Qed.

Lemma prepared_tree_is_dir_outside (cwd : key) (old : bool) (t1 : tree) (k : key) :
  ¬ (iconset_key cwd `prefix_of` k) ->
  is_dir (prepared_tree cwd old t1) k = is_dir t1 k.
Proof.
  intros Hout. destruct k as [| a k]; [reflexivity |].
  unfold is_dir, stat. by rewrite prepared_tree_outside.
Qed.

Lemma prepared_tree_fresh (cwd : key) (t1 : tree) (k : key) :
  well_formed t1 ->
  iconset_key cwd `prefix_of` k -> k ≠ iconset_key cwd ->
  prepared_tree cwd (path_exists cwd t1 iconset_name) t1 !! k = None.
Proof.
  intros Hwf Hin Hne. unfold prepared_tree.
  rewrite lookup_insert_ne by congruence.
  rewrite path_exists_iconset.
  destruct (stat t1 (iconset_key cwd)) as [n |] eqn:Hst.
  - rewrite bool_decide_true by done. by apply remove_subtree_inside.
  - rewrite bool_decide_false by (intros H; by apply H).
    by apply (well_formed_absent_below t1 (iconset_key cwd)).
Qed.

Lemma output_directory_made_spec (output_icns : string) (cwd : key) (t t1 : tree) :
  output_directory_made output_icns cwd t t1 ->
  (forall k n, t !! k = Some n -> t1 !! k = Some n)
  /\ (forall k c, t1 !! k = Some (File c) -> t !! k = Some (File c))
  /\ (tail (parent (Path_of output_icns)) ≠ [] ->
      is_dir t1 (key_of cwd (parent (Path_of output_icns))) = true)
  /\ (well_formed t -> well_formed t1)
  /\ (forall k : key,
        t1 !! k = t !! k
        \/ (t !! k = None /\ t1 !! k = Some Dir
            /\ In k (passed cwd (parent (Path_of output_icns)))))
  /\ path_is_dir cwd t1 (str (parent (Path_of output_icns))) = true
  /\ (forall k : key,
        In k (passed cwd (parent (Path_of output_icns))) -> is_dir t1 k = true).
Proof.
  unfold output_directory_made. cbv zeta. intros Hmk.
  pose proof (normal_output_directory output_icns) as Hp.
  destruct (Path_mkdir_spec _ _ _ _ _ _ Hp Hmk) as (_ & Hadd & Hwf & Hdir & _).
  specialize (Hdir eq_refl). repeat split.
  - intros k n Hk. destruct (Hadd k) as [H | (H & _)]; congruence.
  - intros k c Hk. destruct (Hadd k) as [H | (_ & H & _)]; congruence.
  - intros Hne. by apply path_is_dir_spec in Hdir as (_ & _ & ?).
  - exact Hwf.
  - exact Hadd.
  - exact Hdir.
  - intros k. by apply path_is_dir_passed.
Qed.

(** Directories made on the way along a path without [".."] lie on the
    branch of the tree that leads to the directory the path names. *)
Lemma passed_names (cwd : key) (p : Path) (k : key) :
  ¬ In ".." (tail p) -> In k (passed cwd p) -> k `prefix_of` key_of cwd p.
Proof.
  intros Hno Hin. unfold key_of. rewrite fold_step_names by exact Hno.
  by apply way_names in Hin as (_ & _ & ?).
Qed.

(** ** Trees of the whole function *)

(** After a [return], nothing is left of the working directory. *)
Lemma build_run_removed input_image output_icns cwd t answer t' tr (k : key) :
  build_run input_image output_icns cwd t (Ret answer) t' tr ->
  iconset_key cwd `prefix_of` k -> t' !! k = None.
Proof.
  inversion 1; subst; intros Hin.
  - eapply loop_run_failed_removed; eassumption.
  - by apply remove_subtree_inside.
Qed.

(** A call that stops at a failed rendition leaves no new file. *)
Lemma build_run_no_file input_image output_icns cwd t t' tr (k : key) c :
  build_run input_image output_icns cwd t (Ret false) t' tr ->
  ¬ In (iconutil_argv (Path_of output_icns)) (invocations tr) ->
  t' !! k = Some (File c) -> t !! k = Some (File c).
Proof.
  inversion 1 as [| | | t1 answer t'' trl old Hmade Hcwd Hloop | | 
                  t1 t4 trl cp t5 old Hmade Hcwd Hloop Hleft Hr]; subst.
  - intros _ Hk.
    destruct (decide (iconset_key cwd `prefix_of` k)) as [Hin | Hout].
    + by rewrite (loop_run_failed_removed _ _ _ _ _ _ _ _ Hloop Hin) in Hk.
    + rewrite (loop_run_frame _ _ _ _ _ _ _ _ Hloop) in Hk;
        [| intros spec; apply icon_sizes_inside | exact Hout].
      rewrite prepared_tree_outside in Hk by exact Hout.
      by apply (output_directory_made_spec _ _ _ _ Hmade).
  - intros Hno. exfalso. apply Hno.
    rewrite !invocations_app, invocations_compiled.
    apply in_or_app. right. apply in_or_app. right. by left.
Qed.

Lemma output_directory_made_functional (output_icns : string) (cwd : key)
  (t t1 t1' : tree) :
  output_directory_made output_icns cwd t t1 ->
  output_directory_made output_icns cwd t t1' ->
  t1 = t1'.
Proof. unfold output_directory_made. cbv zeta. congruence. Qed.

(** A directory outside the working directory that exists once the output
    directory is made is still there when the call ends, however it ends. *)
Lemma build_run_keeps_dir (input_image output_icns : string) (cwd : key) (t t1 : tree)
  (r : result bool) (t' : tree) (tr : list event) (k : key) :
  build_run input_image output_icns cwd t r t' tr ->
  output_directory_made output_icns cwd t t1 ->
  ¬ (iconset_key cwd `prefix_of` k) ->
  is_dir t1 k = true -> is_dir t' k = true.
Proof.
  intros Hrun Hmade1 Hout Hd.
  destruct Hrun as [e t' Hos Hmk
                   | t0 e t' tr Hmade Hos Htr Ht
                   | t0 e t' trl old Hmade Hcwd Hloop
                   | t0 answer t' trl old Hmade Hcwd Hloop
                   | t0 t4 trl e t5 old Hmade Hcwd Hloop He Hleft
                   | t0 t4 trl cp t5 old Hmade Hcwd Hloop Hleft];
    [ unfold output_directory_made in Hmade1; cbv zeta in Hmade1; congruence
    | pose proof (output_directory_made_functional _ _ _ _ _ Hmade Hmade1); subst t0 .. ].
  - destruct Ht as [-> | ->]; [exact Hd |].
    by rewrite remove_subtree_keeps_dir.
  - eapply loop_run_keeps_dir; [exact Hloop | exact Hout |].
    by rewrite prepared_tree_is_dir_outside.
  - eapply loop_run_keeps_dir; [exact Hloop | exact Hout |].
    by rewrite prepared_tree_is_dir_outside.
  - eapply left_by_keeps_dir; [exact Hleft |].
    eapply loop_run_keeps_dir; [exact Hloop | exact Hout |].
    by rewrite prepared_tree_is_dir_outside.
  - rewrite remove_subtree_keeps_dir by exact Hout.
    eapply left_by_keeps_dir; [exact Hleft |].
    eapply loop_run_keeps_dir; [exact Hloop | exact Hout |].
    by rewrite prepared_tree_is_dir_outside.
Qed.

(** The loop, when it is left by an exception, has not removed the working
    directory; the exception is the one of the last [subprocess.run]. *)
Lemma loop_run_raised (input_image : string) (cwd : key) (l : list (Z * string))
  (t : tree) (e : exn) (t' : tree) (tr : list event) :
  loop_run input_image cwd l t (Raise e) t' tr ->
  is_dir t (iconset_key cwd) = true ->
  is_dir t' (iconset_key cwd) = true
  /\ exists earlier spec before,
       In spec l
       /\ tr = earlier ++ [ EvRun (sips_argv input_image spec) before None ]
       /\ run_error (sips_argv input_image spec) e.
Proof.
  intros Hloop. remember (Raise e) as r eqn:Hr.
  induction Hloop as [t | spec l t cp t1 r t' tr Hrc Hleft Hloop IH
                      | spec l t cp t1 Hrc Hleft | spec l t e' t1 He Hleft];
    intros Hd; try discriminate.
  - destruct IH as (Hd' & earlier & spec' & before & Hin & -> & He);
      [exact Hr | eapply left_by_keeps_dir; eassumption |].
    split; [exact Hd' |].
    exists (EvRun (sips_argv input_image spec) t (Some cp) :: earlier), spec', before.
    repeat split; [by right | exact He].
  - injection Hr as ->. split; [eapply left_by_keeps_dir; eassumption |].
    exists [], spec, t. repeat split; [by left | exact He].
Qed.

(** A call that raises after an invocation: the working directory is
    there, and the exception is the one of the last [subprocess.run]. *)
Lemma build_run_raised (input_image output_icns : string) (cwd : key) (t : tree)
  (e : exn) (t' : tree) (tr : list event) :
  build_run input_image output_icns cwd t (Raise e) t' tr ->
  invocations tr ≠ [] ->
  is_dir t' (iconset_key cwd) = true
  /\ exists earlier argv before,
       In argv (all_invocations input_image output_icns)
       /\ tr = earlier ++ [ EvRun argv before None ]
       /\ run_error argv e.
Proof.
  intros Hrun Hinv.
  inversion Hrun as [e' t'' Hos Hmk
                    | t1 e' t'' tr' Hmade Hos Htr Ht
                    | t1 e' t'' trl old Hmade Hcwd Hloop
                    | | t1 t4 trl e' t5 old Hmade Hcwd Hloop He Hleft |]; subst.
  - by destruct Hinv.
  - assert (Htr' : In tr (unprepared output_icns)) by by right.
    apply unprepared_quiet in Htr'. tauto.
  - apply loop_run_raised in Hloop; [| apply is_dir_insert_dir].
    destruct Hloop as (Hd & earlier & spec & before & Hin & -> & He).
    split; [exact Hd |].
    exists (prepared input_image output_icns old ++ earlier),
      (sips_argv input_image spec), before.
    repeat split; [| by rewrite <- app_assoc | exact He].
    unfold all_invocations. apply in_or_app. left. by apply in_map.
  - split.
    + eapply left_by_keeps_dir; [exact Hleft |].
      eapply loop_run_completed_keeps_dir; [exact Hloop | apply is_dir_insert_dir].
    + eexists (prepared input_image output_icns old ++ trl ++ [ _; _ ]), _, _.
      repeat split; [| rewrite <- !app_assoc; reflexivity | exact He].
      unfold all_invocations. apply in_or_app. right. by left.
Qed.

Lemma present_iconset (cwd : key) (t : tree) :
  is_dir t (iconset_key cwd) = true -> path_exists cwd t iconset_name = true.
Proof.
  intros Hd. rewrite path_exists_iconset. apply bool_decide_eq_true.
  apply is_dir_spec in Hd. congruence.
Qed.

(** ** The three exit paths *)

Lemma absent_iconset (cwd : key) (t : tree) :
  t !! iconset_key cwd = None -> path_exists cwd t iconset_name = false.
Proof.
  intros H. rewrite path_exists_iconset. unfold iconset_key in *.
  rewrite stat_snoc, H. reflexivity.
Qed.

Lemma trace_shape_exit_path input_image output_icns r tr :
  trace_shape input_image output_icns r tr ->
  (exists answer, r = Ret answer) <-> exit_path input_image output_icns tr.
Proof.
  intros Hshape. split.
  - intros (answer & ->).
    inversion Hshape as [| | old l1 spec l2 oks before cp Hl Hoks Hrc
                         | | old oks before cp Hoks Hr]; subst.
    + eapply (rendition_failure _ _ _ spec before cp); [| | exact Hrc].
      * rewrite Hl. apply in_or_app. right. by left.
      * apply in_or_app. right. apply in_or_app. right. by left.
    + assert (Hin : In (EvRun (iconutil_argv (Path_of output_icns)) before (Some cp))
                      (prepared input_image output_icns old ++ oks
                       ++ compiled output_icns before cp)).
      { apply in_or_app. right. apply in_or_app. right. unfold compiled.
        apply in_or_app. left. cbn. auto. }
      destruct (decide (returncode cp = 0%Z)) as [Hrc | Hrc].
      * eapply success; eassumption.
      * eapply compile_failure; eassumption.
  - intros [spec before cp Hspec Hin Hrc | before cp Hin Hrc | before cp Hin Hrc].
    + destruct (trace_shape_failed_rendition _ _ _ _ _ _ _ Hshape Hin) as
        (old & l1 & spec' & l2 & oks & _ & _ & _ & -> & _); eauto.
    + destruct (trace_shape_compilation _ _ _ _ _ _ Hshape Hin) as
        (old & oks & _ & -> & _); eauto.
    + destruct (trace_shape_compilation _ _ _ _ _ _ Hshape Hin) as
        (old & oks & _ & -> & _); eauto.
Qed.

(** C1, as amended: [generate_icon] returns on exactly three paths, a
    failed rendition, a failed compilation and success; on each of them,
    when it returns, the working directory [VeloxClip.iconset] no longer
    exists, nor anything below it.  These are not all the ways out: when
    [subprocess.run] raises, the call is left by the exception, and the
    working directory stays. *)
Theorem working_directory_removed_on_exit
  env input_image output_icns cwd t r t' tr :
  generate_icon env input_image output_icns cwd t = (r, t', tr) ->
  ((exists answer, r = Ret answer) <-> exit_path input_image output_icns tr)
  /\ ((exists answer, r = Ret answer) ->
      path_exists cwd t' iconset_name = false
      /\ forall k : key, iconset_key cwd `prefix_of` k -> t' !! k = None)
  /\ (forall e, r = Raise e -> invocations tr ≠ [] ->
      path_exists cwd t' iconset_name = true).
Proof.
  intros Hrun. apply generate_icon_sound in Hrun. split; [| split].
  - by apply trace_shape_exit_path, build_run_shape with cwd t t'.
  - intros (answer & ->). split.
    + apply absent_iconset. by eapply build_run_removed.
    + intros k. by eapply build_run_removed.
  - intros e -> Hinv. apply present_iconset.
    by apply (build_run_raised _ _ _ _ _ _ _ Hrun Hinv).
Qed.

(** C1, as stated, fails: when [sips] is not installed the call has made
    the working directory, [subprocess.run] raises [FileNotFoundError], and
    nothing removes the directory. *)
Lemma working_directory_left_on_exception :
  ¬ (forall env input_image output_icns cwd t r t' tr,
       path_exists cwd t input_image = true ->
       generate_icon env input_image output_icns cwd t = (r, t', tr) ->
       path_exists cwd t' iconset_name = false).
Proof.
  intros H.
  pose proof (eq_refl : path_exists Sample.cwd Sample.project "icon.png" = true) as Hex.
  assert (Hr : (generate_icon Sample.no_tools "icon.png" output_icns_default
                  Sample.cwd Sample.project).1.1 = Raise (FileNotFoundError "sips"))
    by (vm_compute; reflexivity).
  assert (Hdir : path_exists Sample.cwd
                   (generate_icon Sample.no_tools "icon.png" output_icns_default
                      Sample.cwd Sample.project).1.2 iconset_name = true)
    by (vm_compute; reflexivity).
  destruct (generate_icon Sample.no_tools "icon.png" output_icns_default
              Sample.cwd Sample.project) as [[r t'] tr] eqn:Hrun.
  cbn [fst snd] in Hr, Hdir.
  rewrite (H _ _ _ _ _ _ _ _ Hex Hrun) in Hdir.
  discriminate Hdir.
Qed.

Lemma failed_rendition_index input_image (k : nat) spec (l1 : list (Z * string)) spec' l2 :
  icon_sizes !! k = Some spec ->
  icon_sizes = l1 ++ spec' :: l2 ->
  sips_argv input_image spec = sips_argv input_image spec' ->
  spec' = spec /\ take (S k) icon_sizes = l1 ++ [ spec' ].
Proof.
  intros Hk Hl Heq.
  assert (Hk' : icon_sizes !! length l1 = Some spec')
    by (rewrite Hl; apply list_lookup_middle; reflexivity).
  assert (Hidx : k = length l1).
  { apply (NoDup_lookup (List.map (sips_argv input_image) icon_sizes) k (length l1)
             (sips_argv input_image spec)).
    - apply sips_argv_NoDup.
    - change (List.map (sips_argv input_image) icon_sizes)
        with (sips_argv input_image <$> icon_sizes).
      by rewrite list_lookup_fmap, Hk.
    - change (List.map (sips_argv input_image) icon_sizes)
        with (sips_argv input_image <$> icon_sizes).
      by rewrite list_lookup_fmap, Hk', Heq. }
  subst k. split; [congruence |].
  rewrite Hl. rewrite (cons_middle spec' l1 l2), app_assoc.
  apply take_app_length'. rewrite length_app. cbn. lia.
Qed.

(** C2: when [sips] reports a non-zero exit status on the [k]-th SizeSpec,
    the invocations of the call are exactly those of the SizeSpecs up to the
    [k]-th, so that no later SizeSpec is attempted and [iconutil] is not
    invoked; the call prints the error, whose text holds the name of the
    file and then the diagnostic output of the tool, removes the working
    directory and returns [False];
    the working directory is gone, and no file at all has appeared or
    changed in the tree, in particular no [.icns] file. *)
Theorem rendition_failure_stops_the_build
  env input_image output_icns cwd t r t' tr (k : nat) spec before cp :
  generate_icon env input_image output_icns cwd t = (r, t', tr) ->
  icon_sizes !! k = Some spec ->
  In (EvRun (sips_argv input_image spec) before (Some cp)) tr ->
  returncode cp ≠ 0%Z ->
  invocations tr = List.map (sips_argv input_image) (take (S k) icon_sizes)
  /\ ¬ In (iconutil_argv (Path_of output_icns)) (invocations tr)
  /\ (exists earlier,
        tr = earlier
             ++ [ EvRun (sips_argv input_image spec) before (Some cp);
                  EvPrint ("❌ Failed to generate " +:+ spec.2 +:+ ": " +:+ stderr cp);
                  EvRmtree iconset_name ])
  /\ r = Ret false
  /\ path_exists cwd t' iconset_name = false
  /\ (forall entry : key, iconset_key cwd `prefix_of` entry -> t' !! entry = None)
  /\ (forall (entry : key) c,
        t' !! entry = Some (File c) -> t !! entry = Some (File c)).
Proof.
  intros Hrun Hk Hin Hrc. apply generate_icon_sound in Hrun.
  pose proof (build_run_shape _ _ _ _ _ _ _ Hrun) as Hshape.
  destruct (trace_shape_failed_rendition _ _ _ _ _ _ _ Hshape Hin) as
    (old & l1 & spec' & l2 & oks & Hl & Heq & Hoks & -> & ->); eauto.
  destruct (failed_rendition_index _ _ _ _ _ _ Hk Hl Heq) as (-> & Htake).
  assert (Hinv : invocations
                   (prepared input_image output_icns old ++ oks
                    ++ [ EvRun (sips_argv input_image spec) before (Some cp);
                         EvPrint (failed_to_generate spec.2 (stderr cp));
                         EvRmtree iconset_name ])
                 = List.map (sips_argv input_image) (take (S k) icon_sizes)).
  { rewrite !invocations_app, invocations_prepared, (rendered_invocations _ _ _ Hoks).
    rewrite Htake, map_app. reflexivity. }
  assert (Hno : ¬ In (iconutil_argv (Path_of output_icns))
                    (List.map (sips_argv input_image) (take (S k) icon_sizes))).
  { intros Hbad. apply in_map_iff in Hbad. destruct Hbad as (s & Hs & _).
    by apply sips_is_not_iconutil in Hs. }
  rewrite <- Hinv in Hno.
  split; [exact Hinv |]. split; [exact Hno |].
  split; [rewrite app_assoc; eauto |]. split; [reflexivity |].
  split; [| split].
  - apply absent_iconset. by eapply build_run_removed.
  - intros entry. by eapply build_run_removed.
  - intros entry c. by eapply build_run_no_file.
Qed.

(** ** The compilation *)


(** ** The beginning of a call *)

Lemma build_run_begins input_image output_icns cwd t r t' tr :
  build_run input_image output_icns cwd t r t' tr ->
  exists rest, tr = EvMkdir (str (parent (Path_of output_icns))) :: rest.
Proof.
  destruct 1 as [e t' Hos Hmk | t1 e t' tr Hmade Hos Htr Ht | | | |];
    [by eexists | | unfold prepared; cbn [app]; eauto ..].
  assert (Htr' : In tr (unprepared output_icns)) by by right.
  apply unprepared_quiet in Htr'. tauto.
Qed.

Lemma build_run_prepared input_image output_icns cwd t r t' tr :
  build_run input_image output_icns cwd t r t' tr ->
  invocations tr ≠ [] ->
  exists t1 rl tl trl rest,
    output_directory_made output_icns cwd t t1
    /\ is_dir (prepared_tree cwd (path_exists cwd t1 iconset_name) t1) cwd = true
    /\ loop_run input_image cwd icon_sizes
         (prepared_tree cwd (path_exists cwd t1 iconset_name) t1) rl tl trl
    /\ tr = prepared input_image output_icns (path_exists cwd t1 iconset_name)
            ++ trl ++ rest.
Proof.
  destruct 1 as [e t' Hos Hmk
                | t1 e t' tr Hmade Hos Htr Ht
                | t1 e t' trl old Hmade Hcwd Hloop
                | t1 answer t' trl old Hmade Hcwd Hloop
                | t1 t4 trl e t5 old Hmade Hcwd Hloop He Hleft
                | t1 t4 trl cp t5 old Hmade Hcwd Hloop Hleft]; intros Hinv.
  - by destruct Hinv.
  - assert (Htr' : In tr (unprepared output_icns)) by by right.
    apply unprepared_quiet in Htr'. tauto.
  - exists t1, (Raise e), t', trl, []. rewrite app_nil_r. auto.
  - exists t1, (Ret (Some answer)), t', trl, []. rewrite app_nil_r. auto.
  - eexists t1, (Ret None), t4, trl, _. auto.
  - eexists t1, (Ret None), t4, trl, _. auto.
Qed.

Lemma iconset_not_above_cwd (cwd : key) : ¬ (iconset_key cwd `prefix_of` cwd).
Proof.
  intros [s Hs]. apply (f_equal length) in Hs. unfold iconset_key in Hs.
  rewrite !length_app in Hs. cbn in Hs. lia.
Qed.

Lemma output_directory_exists (output_icns : string) (cwd : key) (t t1 : tree) (old : bool) :
  output_directory_made output_icns cwd t t1 ->
  is_dir (prepared_tree cwd old t1) cwd = true ->
  is_dir t1 (key_of cwd (parent (Path_of output_icns))) = true.
Proof.
  intros Hmade Hcwd.
  destruct (tail (parent (Path_of output_icns))) as [| c rest] eqn:Htail.
  - unfold key_of, base_of. rewrite Htail. cbn [fold_left].
    destruct (root (parent (Path_of output_icns))); [| reflexivity].
    by rewrite prepared_tree_is_dir_outside in Hcwd by apply iconset_not_above_cwd.
  - destruct (output_directory_made_spec _ _ _ _ Hmade) as (_ & _ & H & _).
    apply H. by rewrite Htail.
Qed.

Lemma last_event_run (earlier : list event) (e : event) :
  invocations [ e ] ≠ [] -> invocations (earlier ++ [ e ]) ≠ [].
Proof.
  rewrite invocations_app. intros H1 H2. apply app_eq_nil in H2 as [_ H2]. by apply H1.
Qed.

(** C7: a call begins by creating the directory of the output path, with
    its missing ancestors; it then removes the working directory if there is
    one, and creates it; only then, and after three lines of console output,
    is the first tool invoked.  The first step leaves the output directory
    in existence and changes the tree only by adding directories that were
    missing at the nodes the path of the output directory leads through;
    the first invocation finds the working directory present and, in a
    well-formed tree, empty. *)
Theorem preparation_precedes_invocations
  env input_image output_icns cwd t r t' tr :
  generate_icon env input_image output_icns cwd t = (r, t', tr) ->
  let p := parent (Path_of output_icns) in
  (exists rest, tr = EvMkdir (str p) :: rest)
  /\ (invocations tr ≠ [] ->
      exists t1 completed rest,
        let old := path_exists cwd t1 iconset_name in
        let t3 := prepared_tree cwd old t1 in
        Path_mkdir p cwd t = (Ret tt, t1, [ EvMkdir (str p) ])
        /\ tr = EvMkdir (str p)
                :: (if old then [ EvRmtree iconset_name ] else [])
                ++ EvMakedirs iconset_name
                :: EvPrint "🎨 Generating app icon..."
                :: EvPrint ("📥 Input image: " +:+ input_image)
                :: EvPrint "📐 Generating icon sizes..."
                :: EvRun (sips_argv input_image (16%Z, "icon_16x16.png")) t3 completed
                :: rest
        /\ is_dir t1 (key_of cwd p) = true
        /\ path_is_dir cwd t1 (str p) = true
        /\ (forall k : key,
              t1 !! k = t !! k
              \/ (t !! k = None /\ t1 !! k = Some Dir /\ In k (passed cwd p)))
        /\ (stat t (iconset_key cwd) ≠ None -> old = true)
        /\ is_dir t3 (iconset_key cwd) = true
        /\ (well_formed t ->
            forall k : key,
              iconset_key cwd `prefix_of` k -> k ≠ iconset_key cwd -> t3 !! k = None)).
Proof.
  intros Hrun p. apply generate_icon_sound in Hrun. split.
  - by eapply build_run_begins.
  - intros Hinv.
    destruct (build_run_prepared _ _ _ _ _ _ _ Hrun Hinv) as
      (t1 & rl & tl & trl & rest & Hmade & Hcwd & Hloop & ->).
    apply loop_run_first in Hloop. destruct Hloop as (completed & rest' & ->).
    exists t1, completed, (rest' ++ rest). cbv zeta.
    pose proof (output_directory_made_spec _ _ _ _ Hmade)
      as (Hkeep & _ & _ & Hwf & Hadd & Hisdir & _).
    split; [exact Hmade |]. split.
    { unfold prepared. destruct (path_exists cwd t1 iconset_name); reflexivity. }
    split; [by eapply output_directory_exists |].
    split; [exact Hisdir |].
    split; [exact Hadd |]. split; [| split].
    + intros Hsome. rewrite path_exists_iconset. apply bool_decide_eq_true.
      unfold iconset_key in *. rewrite stat_snoc in *.
      destruct (t !! (cwd ++ [ iconset_name ])) as [n |] eqn:Hn; [| done].
      by rewrite (Hkeep _ _ Hn).
    + apply is_dir_insert_dir.
    + intros Hwf0 k Hin Hne. apply prepared_tree_fresh; auto.
Qed.

(** ** The directory of the output *)

(** C10, as amended: every call of [generate_icon] whose first statement
    succeeds in making the directory of the output path leaves that path
    the name of a directory when the call ends, be it by a return (after a
    failed rendition, a failed compilation or a success) or by an exception
    raised later, provided the path does not lead into or through the
    working directory [VeloxClip.iconset]. *)
Theorem output_directory_kept
  env input_image output_icns cwd t t1 r t' tr :
  generate_icon env input_image output_icns cwd t = (r, t', tr) ->
  output_directory_made output_icns cwd t t1 ->
  (forall k : key,
     In k (passed cwd (parent (Path_of output_icns))) ->
     ¬ (iconset_key cwd `prefix_of` k)) ->
  path_is_dir cwd t' (str (parent (Path_of output_icns))) = true.
Proof.
  intros Hrun Hmade Hclear. apply generate_icon_sound in Hrun.
  destruct (output_directory_made_spec _ _ _ _ Hmade) as (_ & _ & _ & _ & _ & Hdir & _).
  eapply path_is_dir_mono; [apply normal_output_directory | | exact Hdir].
  intros k Hk Hd. eapply build_run_keeps_dir; eauto.
Qed.

(** C10, as stated, fails in two ways.  With the output path
    [VeloxClip.iconset/AppIcon.icns] the directory of the output is the
    working directory itself, which the call removes before it returns.
    With the output path [icon.png/AppIcon.icns], where [icon.png] is a
    regular file, the first statement raises [FileExistsError] and there
    is no such directory. *)
Lemma output_directory_not_always_kept :
  ¬ (forall env input_image output_icns cwd t t1 r t' tr,
       path_exists cwd t input_image = true ->
       generate_icon env input_image output_icns cwd t = (r, t', tr) ->
       output_directory_made output_icns cwd t t1 ->
       path_is_dir cwd t' (str (parent (Path_of output_icns))) = true)
  /\ ¬ (forall env input_image output_icns cwd t r t' tr,
         path_exists cwd t input_image = true ->
         generate_icon env input_image output_icns cwd t = (r, t', tr) ->
         (forall k : key,
            In k (passed cwd (parent (Path_of output_icns))) ->
            ¬ (iconset_key cwd `prefix_of` k)) ->
         path_is_dir cwd t' (str (parent (Path_of output_icns))) = true).
Proof.
  pose proof (eq_refl : path_exists Sample.cwd Sample.project "icon.png" = true) as Hex.
  split; intros H.
  - assert (Hr : (Path_mkdir (parent (Path_of "VeloxClip.iconset/AppIcon.icns"))
                    Sample.cwd Sample.project).1.1 = Ret tt)
      by (vm_compute; reflexivity).
    assert (Htr : (Path_mkdir (parent (Path_of "VeloxClip.iconset/AppIcon.icns"))
                     Sample.cwd Sample.project).2
                  = [ EvMkdir (str (parent (Path_of "VeloxClip.iconset/AppIcon.icns"))) ])
      by (vm_compute; reflexivity).
    assert (Hdir : path_is_dir Sample.cwd
                     (generate_icon Sample.tools "icon.png"
                        "VeloxClip.iconset/AppIcon.icns"
                        Sample.cwd Sample.project).1.2
                     (str (parent (Path_of "VeloxClip.iconset/AppIcon.icns")))
                   = false)
      by (vm_compute; reflexivity).
    destruct (Path_mkdir (parent (Path_of "VeloxClip.iconset/AppIcon.icns"))
                Sample.cwd Sample.project) as [[r0 t1] tr0] eqn:Hmk.
    cbn [fst snd] in Hr, Htr. subst r0 tr0.
    destruct (generate_icon Sample.tools "icon.png" "VeloxClip.iconset/AppIcon.icns"
                Sample.cwd Sample.project) as [[r t'] tr] eqn:Hrun.
    cbn [fst snd] in Hdir.
    rewrite (H _ _ _ _ _ _ _ _ _ Hex Hrun Hmk) in Hdir.
    discriminate Hdir.
  - assert (Hclear : forall k : key,
              In k (passed Sample.cwd (parent (Path_of "icon.png/AppIcon.icns"))) ->
              ¬ (iconset_key Sample.cwd `prefix_of` k)).
    { intros k [<- | []] [s Hs]. discriminate Hs. }
    assert (Hdir : path_is_dir Sample.cwd
                     (generate_icon Sample.tools "icon.png" "icon.png/AppIcon.icns"
                        Sample.cwd Sample.project).1.2
                     (str (parent (Path_of "icon.png/AppIcon.icns")))
                   = false)
      by (vm_compute; reflexivity).
    destruct (generate_icon Sample.tools "icon.png" "icon.png/AppIcon.icns"
                Sample.cwd Sample.project) as [[r t'] tr] eqn:Hrun.
    cbn [fst snd] in Hdir.
    rewrite (H _ _ _ _ _ _ _ _ Hex Hrun Hclear) in Hdir.
    discriminate Hdir.
Qed.

(** ** Distinct rendition files *)

Lemma filter_sips input_image (specs : list (Z * string)) :
  List.filter is_sips (List.map (sips_argv input_image) specs)
  = List.map (sips_argv input_image) specs.
Proof. induction specs as [| spec specs IH]; [reflexivity |]. cbn. by rewrite IH. Qed.

Lemma trace_shape_renditions input_image output_icns r tr :
  trace_shape input_image output_icns r tr ->
  exists l1 l2,
    icon_sizes = l1 ++ l2
    /\ List.filter is_sips (invocations tr) = List.map (sips_argv input_image) l1.
Proof.
  destruct 1 as [e tr Hos Htr
                | old l1 spec l2 oks before e Hl Hoks He
                | old l1 spec l2 oks before cp Hl Hoks Hrc
                | old oks before e Hoks He
                | old oks before cp Hoks].
  - apply unprepared_quiet in Htr. destruct Htr as (-> & _). by exists [], icon_sizes.
  - exists (l1 ++ [ spec ]), l2. split; [by rewrite <- app_assoc |].
    rewrite !invocations_app, invocations_prepared, (rendered_invocations _ _ _ Hoks).
    cbn [app]. rewrite List.filter_app, filter_sips, map_app. reflexivity.
  - exists (l1 ++ [ spec ]), l2. split; [by rewrite <- app_assoc |].
    rewrite !invocations_app, invocations_prepared, (rendered_invocations _ _ _ Hoks).
    cbn [app]. rewrite List.filter_app, filter_sips, map_app. reflexivity.
  - exists icon_sizes, []. split; [by rewrite app_nil_r |].
    rewrite !invocations_app, invocations_prepared, (rendered_invocations _ _ _ Hoks).
    cbn [app]. rewrite List.filter_app, filter_sips. apply app_nil_r.
  - exists icon_sizes, []. split; [by rewrite app_nil_r |].
    rewrite !invocations_app, invocations_prepared, (rendered_invocations _ _ _ Hoks).
    rewrite invocations_compiled.
    cbn [app]. rewrite List.filter_app, filter_sips. apply app_nil_r.
Qed.

(** C9: the ten file names of the table are pairwise distinct; so are the
    ten files they name, all of them directly inside the working directory;
    and in every call the [sips] invocations write to pairwise distinct
    files, so that no rendition overwrites an earlier one. *)
Theorem rendition_files_distinct :
  NoDup (List.map snd icon_sizes)
  /\ (forall cwd : key,
        NoDup (List.map (rendition_key cwd) icon_sizes)
        /\ forall spec, In spec icon_sizes ->
                        rendition_key cwd spec = iconset_key cwd ++ [ spec.2 ])
  /\ (forall env input_image output_icns cwd t,
        NoDup (rendition_targets cwd
                 (generate_icon env input_image output_icns cwd t).2)).
Proof.
  split; [| split].
  - apply (bool_decide_unpack _). vm_compute. reflexivity.
  - intros cwd. split; [apply rendition_key_NoDup | apply rendition_key_inside].
  - intros env input_image output_icns cwd t.
    destruct (generate_icon env input_image output_icns cwd t) as [[r t'] tr] eqn:Hrun.
    apply generate_icon_sound, build_run_shape, trace_shape_renditions in Hrun.
    destruct Hrun as (l1 & l2 & Hl & Hsips). cbn [snd].
    unfold rendition_targets. rewrite Hsips, map_map.
    pose proof (rendition_key_NoDup cwd) as Hnd.
    rewrite Hl, map_app in Hnd. apply NoDup_app in Hnd. apply Hnd.
Qed.

(** ** The command line *)

Lemma main_unfold env argv cwd t :
  main env argv cwd t
  = if (length argv <? 2)%nat then (Raise (SystemExit 1), t, usage)
    else if path_exists cwd t (List.nth 1 argv "")
    then match generate_icon env (List.nth 1 argv "") output_icns_default cwd t with
         | (Ret true, t', tr) => (Raise (SystemExit 0), t', tr ++ [ tip ])
         | (Ret false, t', tr) => (Raise (SystemExit 1), t', tr)
         | (Raise e, t', tr) => (Raise e, t', tr)
         end
    else (Raise (SystemExit 1), t, [ file_not_found (List.nth 1 argv "") ]).
Proof.
  unfold main. destruct (length argv <? 2)%nat; [reflexivity |].
  unfold bind at 1. cbn [ret]. unfold bind at 1. cbn [os_path_exists].
  destruct (path_exists cwd t (List.nth 1 argv "")); [| reflexivity].
  cbn [negb]. unfold bind at 1. cbn [ret]. unfold bind at 1.
  destruct (generate_icon env (List.nth 1 argv "") output_icns_default cwd t)
    as [[[[] | e] t'] tr]; cbn; try reflexivity.
  by rewrite app_nil_r.
Qed.

Lemma generate_icon_os_error env input_image output_icns cwd t e t' tr :
  generate_icon env input_image output_icns cwd t = (Raise e, t', tr) ->
  os_error e = true.
Proof.
  intros Hrun. apply generate_icon_sound, build_run_shape in Hrun.
  inversion Hrun; subst; [assumption | by eapply run_error_os_error ..].
Qed.



(** ** The sample runs *)

Lemma In_by_decision (e : event) (tr : list event) :
  bool_decide (e ∈ tr) = true -> In e tr.
Proof. intros H. apply list_elem_of_In. by apply bool_decide_eq_true_1 in H. Qed.

Lemma well_formed_check (t : tree) :
  forallb (fun kv : key * node => is_dir t (removelast kv.1)) (map_to_list t) = true ->
  well_formed t.
Proof.
  intros Hall k n Hk. apply elem_of_map_to_list, list_elem_of_In in Hk.
  rewrite forallb_forall in Hall. exact (Hall (k, n) Hk).
Qed.

Lemma stale_project_well_formed : well_formed Sample.stale_project.
Proof. apply well_formed_check. vm_compute. reflexivity. Qed.

Lemma working_directory_removed_on_exit_witness :
  (Sample.built.1.1 = Ret true
   /\ path_exists Sample.cwd Sample.built.1.2 iconset_name = false)
  /\ (Sample.unrendered.1.1 = Ret false
      /\ path_exists Sample.cwd Sample.unrendered.1.2 iconset_name = false)
  /\ (Sample.uncompiled.1.1 = Ret false
      /\ path_exists Sample.cwd Sample.uncompiled.1.2 iconset_name = false)
  /\ (Edge.crashed.1.1 = Raise (FileNotFoundError "sips")
      /\ invocations Edge.crashed.2 ≠ []
      /\ path_exists Sample.cwd Edge.crashed.1.2 iconset_name = true).
Proof.
  assert (H1 : Sample.built.1.1 = Ret true) by (vm_compute; reflexivity).
  assert (H2 : Sample.unrendered.1.1 = Ret false) by (vm_compute; reflexivity).
  assert (H3 : Sample.uncompiled.1.1 = Ret false) by (vm_compute; reflexivity).
  assert (H4 : Edge.crashed.1.1 = Raise (FileNotFoundError "sips"))
    by (vm_compute; reflexivity).
  assert (Hinv : invocations Edge.crashed.2 ≠ []) by (vm_compute; discriminate).
  split; [| split; [| split]].
  - destruct (generate_icon Sample.tools _ _ _ _) as [[r t'] tr] eqn:Hrun.
    cbn [fst snd] in *. split; [exact H1 |].
    destruct (working_directory_removed_on_exit _ _ _ _ _ _ _ _ Hrun) as (_ & H & _).
    apply H. eauto.
  - destruct (generate_icon (Sample.sips_failing_on _) _ _ _ _) as [[r t'] tr] eqn:Hrun.
    cbn [fst snd] in *. split; [exact H2 |].
    destruct (working_directory_removed_on_exit _ _ _ _ _ _ _ _ Hrun) as (_ & H & _).
    apply H. eauto.
  - destruct (generate_icon Sample.iconutil_failing _ _ _ _) as [[r t'] tr] eqn:Hrun.
    cbn [fst snd] in *. split; [exact H3 |].
    destruct (working_directory_removed_on_exit _ _ _ _ _ _ _ _ Hrun) as (_ & H & _).
    apply H. eauto.
  - destruct (generate_icon Sample.no_tools _ _ _ _) as [[r t'] tr] eqn:Hrun.
    cbn [fst snd] in *. split; [exact H4 |]. split; [exact Hinv |].
    destruct (working_directory_removed_on_exit _ _ _ _ _ _ _ _ Hrun) as (_ & _ & H).
    exact (H _ H4 Hinv).
Defined.

Lemma rendition_failure_stops_the_build_witness :
  icon_sizes !! 2%nat = Some (32%Z, "icon_32x32.png")
  /\ In (EvRun (sips_argv "icon.png" (32%Z, "icon_32x32.png"))
           (Sample.tree_before 7 Sample.unrendered.2) (Some Sample.failed))
        Sample.unrendered.2
  /\ returncode Sample.failed ≠ 0%Z
  /\ invocations Sample.unrendered.2
     = List.map (sips_argv "icon.png") (take 3 icon_sizes)
  /\ Sample.unrendered.1.1 = Ret false
  /\ path_exists Sample.cwd Sample.unrendered.1.2 iconset_name = false.
Proof.
  assert (Hk : icon_sizes !! 2%nat = Some (32%Z, "icon_32x32.png")) by reflexivity.
  assert (Hin : In (EvRun (sips_argv "icon.png" (32%Z, "icon_32x32.png"))
                      (Sample.tree_before 7 Sample.unrendered.2) (Some Sample.failed))
                   Sample.unrendered.2)
    by (apply In_by_decision; vm_compute; reflexivity).
  assert (Hrc : returncode Sample.failed ≠ 0%Z) by discriminate.
  split; [exact Hk |]. split; [exact Hin |]. split; [exact Hrc |].
  generalize dependent (Sample.tree_before 7 Sample.unrendered.2). intros before Hin.
  destruct (generate_icon (Sample.sips_failing_on _) _ _ _ _) as [[r t'] tr] eqn:Hrun.
  cbn [fst snd] in *.
  destruct (rendition_failure_stops_the_build _ _ _ _ _ _ _ _ _ _ _ _ Hrun Hk Hin Hrc)
    as (Hinv & _ & _ & Hr & Hgone & _).
  auto.
Defined.




Lemma preparation_precedes_invocations_witness :
  invocations Sample.rebuilt.2 ≠ []
  /\ well_formed Sample.stale_project
  /\ (exists rest, Sample.rebuilt.2 = EvMkdir "VeloxClip/Resources" :: rest)
  /\ exists t1 t3 completed rest,
       Sample.rebuilt.2
       = [ EvMkdir "VeloxClip/Resources";
           EvRmtree "VeloxClip.iconset";
           EvMakedirs "VeloxClip.iconset";
           EvPrint "🎨 Generating app icon...";
           EvPrint "📥 Input image: icon.png";
           EvPrint "📐 Generating icon sizes..." ]
         ++ EvRun (sips_argv "icon.png" (16%Z, "icon_16x16.png")) t3 completed :: rest
       /\ is_dir t1 [ "work"; "VeloxClip"; "Resources" ] = true
       /\ is_dir t3 [ "work"; "VeloxClip.iconset" ] = true
       /\ t3 !! [ "work"; "VeloxClip.iconset"; "icon_16x16.png" ] = None.
Proof.
  assert (Hinv : invocations Sample.rebuilt.2 ≠ [])
    by (vm_compute; discriminate).
  assert (Hstale : stat Sample.stale_project (iconset_key Sample.cwd) ≠ None)
    by (vm_compute; discriminate).
  pose proof stale_project_well_formed as Hwf.
  split; [exact Hinv |]. split; [exact Hwf |].
  destruct (generate_icon Sample.tools _ _ _ Sample.stale_project)
    as [[r t'] tr] eqn:Hrun.
  cbn [fst snd] in *.
  destruct (preparation_precedes_invocations _ _ _ _ _ _ _ _ Hrun) as (Hfirst & Hthen).
  split; [exact Hfirst |].
  destruct (Hthen Hinv)
    as (t1 & completed & rest & _ & Htr & Hout & _ & _ & Hold & Hdir & Hfresh).
  rewrite (Hold Hstale) in *.
  exists t1, (prepared_tree Sample.cwd true t1), completed, rest.
  split; [exact Htr |]. split; [exact Hout |]. split; [exact Hdir |].
  apply (Hfresh Hwf).
  - by exists [ "icon_16x16.png" ].
  - discriminate.
Defined.


Lemma output_directory_kept_witness :
  (forall k : key,
     In k (passed Sample.cwd (parent (Path_of output_icns_default))) ->
     ¬ (iconset_key Sample.cwd `prefix_of` k))
  /\ (exists t1, output_directory_made output_icns_default Sample.cwd Sample.project t1)
  /\ path_is_dir Sample.cwd Sample.built.1.2 "VeloxClip/Resources" = true
  /\ path_is_dir Sample.cwd Sample.unrendered.1.2 "VeloxClip/Resources" = true
  /\ path_is_dir Sample.cwd Sample.uncompiled.1.2 "VeloxClip/Resources" = true
  /\ path_is_dir Sample.cwd Edge.crashed.1.2 "VeloxClip/Resources" = true.
Proof.
  assert (Hclear : forall k : key,
            In k (passed Sample.cwd (parent (Path_of output_icns_default))) ->
            ¬ (iconset_key Sample.cwd `prefix_of` k)).
  { intros k [<- | [<- | []]] [s Hs]; discriminate Hs. }
  assert (Hr : (Path_mkdir (parent (Path_of output_icns_default))
                  Sample.cwd Sample.project).1.1 = Ret tt)
    by (vm_compute; reflexivity).
  assert (Htr : (Path_mkdir (parent (Path_of output_icns_default))
                   Sample.cwd Sample.project).2
                = [ EvMkdir (str (parent (Path_of output_icns_default))) ])
    by (vm_compute; reflexivity).
  destruct (Path_mkdir (parent (Path_of output_icns_default)) Sample.cwd Sample.project)
    as [[r0 t1] tr0] eqn:Hmade.
  cbn [fst snd] in Hr, Htr. subst r0 tr0.
  split; [exact Hclear |]. split; [by exists t1 |]. split; [| split; [| split]].
  - destruct (generate_icon Sample.tools _ _ _ _) as [[r t'] tr] eqn:Hrun.
    exact (output_directory_kept _ _ _ _ _ _ _ _ _ Hrun Hmade Hclear).
  - destruct (generate_icon (Sample.sips_failing_on _) _ _ _ _) as [[r t'] tr] eqn:Hrun.
    exact (output_directory_kept _ _ _ _ _ _ _ _ _ Hrun Hmade Hclear).
  - destruct (generate_icon Sample.iconutil_failing _ _ _ _) as [[r t'] tr] eqn:Hrun.
    exact (output_directory_kept _ _ _ _ _ _ _ _ _ Hrun Hmade Hclear).
  - destruct (generate_icon Sample.no_tools _ _ _ _) as [[r t'] tr] eqn:Hrun.
    exact (output_directory_kept _ _ _ _ _ _ _ _ _ Hrun Hmade Hclear).
Defined.

(** * Further properties of the script *)

(** ** The order of the invocations *)

Lemma trace_shape_invocations input_image output_icns r tr :
  trace_shape input_image output_icns r tr ->
  invocations tr `prefix_of` all_invocations input_image output_icns.
Proof.
  unfold all_invocations.
  destruct 1 as [e tr Hos Htr
                | old l1 spec l2 oks before e Hl Hoks He
                | old l1 spec l2 oks before cp Hl Hoks Hrc
                | old oks before e Hoks He
                | old oks before cp Hoks].
  - apply unprepared_quiet in Htr. destruct Htr as (-> & _). apply prefix_nil.
  - rewrite !invocations_app, invocations_prepared, (rendered_invocations _ _ _ Hoks).
    rewrite Hl, map_app. cbn. exists (List.map (sips_argv input_image) l2
                                        ++ [ iconutil_argv (Path_of output_icns) ]).
    by rewrite <- !app_assoc.
  - rewrite !invocations_app, invocations_prepared, (rendered_invocations _ _ _ Hoks).
    rewrite Hl, map_app. cbn. exists (List.map (sips_argv input_image) l2
                                        ++ [ iconutil_argv (Path_of output_icns) ]).
    by rewrite <- !app_assoc.
  - rewrite !invocations_app, invocations_prepared, (rendered_invocations _ _ _ Hoks).
    cbn. by exists [].
  - rewrite !invocations_app, invocations_prepared, (rendered_invocations _ _ _ Hoks).
    rewrite invocations_compiled. cbn. by exists [].
Qed.

Lemma zeros_then_one (n : nat) (tail : list Z) (i : nat) (z : Z) :
  (length tail <= 1)%nat ->
  (replicate n 0%Z ++ tail) !! i = Some z ->
  (S i < length (replicate n 0%Z ++ tail))%nat ->
  z = 0%Z.
Proof.
  intros Hlen Hi Hlt. rewrite length_app, length_replicate in Hlt.
  rewrite lookup_app_l in Hi by (rewrite length_replicate; lia).
  apply lookup_replicate in Hi. tauto.
Qed.

(** X1: whatever the tools answer, the invocations of a call are an initial
    part of the fixed sequence, the ten renditions in the order of the table
    and then the compilation: no tool is invoked twice, out of order, or
    after a failure; every exit status but the last one seen is zero. *)
Theorem invocations_in_fixed_order
  env input_image output_icns cwd t r t' tr :
  generate_icon env input_image output_icns cwd t = (r, t', tr) ->
  invocations tr `prefix_of` all_invocations input_image output_icns
  /\ forall (i : nat) (z : Z),
       statuses tr !! i = Some z -> (S i < length (statuses tr))%nat -> z = 0%Z.
Proof.
  intros Hrun. apply generate_icon_sound, build_run_shape in Hrun. split.
  - by apply (trace_shape_invocations _ _ r).
  - intros i z. pose proof (trace_shape_statuses _ _ _ _ Hrun) as Hst.
    destruct r as [[] | e].
    + rewrite Hst. rewrite <- (app_nil_r (replicate 11 0%Z)).
      apply zeros_then_one. cbn. lia.
    + destruct Hst as (n & z' & _ & _ & ->). apply zeros_then_one. cbn. lia.
    + destruct Hst as (n & _ & ->). rewrite <- (app_nil_r (replicate n 0%Z)).
      apply zeros_then_one. cbn. lia.
Qed.

Lemma invocations_in_fixed_order_witness :
  invocations Sample.unrendered.2
  `prefix_of` all_invocations "icon.png" output_icns_default
  /\ length (invocations Sample.unrendered.2) = 3%nat.
Proof.
  assert (Hlen : length (invocations Sample.unrendered.2) = 3%nat)
    by (vm_compute; reflexivity).
  destruct (generate_icon (Sample.sips_failing_on _) _ _ _ _) as [[r t'] tr] eqn:Hrun.
  cbn [fst snd] in *. split; [| exact Hlen].
  apply (invocations_in_fixed_order _ _ _ _ _ _ _ _ Hrun).
Defined.

(** ** An exception of [subprocess.run] *)



(** ** What a call leaves untouched *)

Lemma loop_run_outside input_image cwd t r t' tr (k : key) :
  loop_run input_image cwd icon_sizes t r t' tr ->
  ¬ (iconset_key cwd `prefix_of` k) ->
  t' !! k = t !! k.
Proof.
  intros Hloop Hout. eapply loop_run_frame; [exact Hloop | | exact Hout].
  intros spec. apply icon_sizes_inside.
Qed.

Lemma build_run_outside (input_image output_icns : string) (cwd : key) (t : tree) (answer : bool) (t' : tree) (tr : list event) (k : key) :
  build_run input_image output_icns cwd t (Ret answer) t' tr ->
  ¬ (iconset_key cwd `prefix_of` k) ->
  k ≠ output_key cwd output_icns ->
  exists t1, output_directory_made output_icns cwd t t1 /\ t' !! k = t1 !! k.
Proof.
  intros Hrun Hout Hne.
  inversion Hrun as [| | | t1 answer' t'' trl old Hmade Hcwd Hloop | |
                     t1 t4 trl cp t5 old Hmade Hcwd Hloop Hleft Hr]; subst;
    exists t1; (split; [exact Hmade |]).
  - rewrite (loop_run_outside _ _ _ _ _ _ _ Hloop Hout).
    by rewrite prepared_tree_outside by exact Hout.
  - rewrite remove_subtree_outside by exact Hout.
    rewrite (left_by_other _ _ _ _ Hleft Hne).
    rewrite (loop_run_outside _ _ _ _ _ _ _ Hloop Hout).
    by rewrite prepared_tree_outside by exact Hout.
Qed.

(** X3: a call that returns changes nothing outside the working directory
    but two things: directories that were missing at the nodes the path of
    the output directory leads through, and the output file itself, at the
    node the kernel finds for the output path.  Every other entry, the input
    image among them, is the same after the call as before. *)
Theorem entries_outside_untouched
  env input_image output_icns cwd t answer t' tr (k : key) :
  generate_icon env input_image output_icns cwd t = (Ret answer, t', tr) ->
  ¬ (iconset_key cwd `prefix_of` k) ->
  k ≠ output_key cwd output_icns ->
  t' !! k = t !! k
  \/ (t !! k = None /\ t' !! k = Some Dir
      /\ In k (passed cwd (parent (Path_of output_icns)))).
Proof.
  intros Hrun Hout Hne. apply generate_icon_sound in Hrun.
  destruct (build_run_outside _ _ _ _ _ _ _ _ Hrun Hout Hne) as (t1 & Hmade & ->).
  destruct (output_directory_made_spec _ _ _ _ Hmade) as (_ & _ & _ & _ & H & _).
  apply H.
Qed.

Lemma entries_outside_untouched_witness :
  ¬ (iconset_key Sample.cwd `prefix_of` [ "work"; "icon.png" ])
  /\ [ "work"; "icon.png" ] ≠ output_key Sample.cwd output_icns_default
  /\ Sample.built.1.2 !! [ "work"; "icon.png" ] = Some (File "png")
  /\ Sample.uncompiled.1.2 !! [ "work"; "icon.png" ] = Some (File "png").
Proof.
  assert (Hout : ¬ (iconset_key Sample.cwd `prefix_of` [ "work"; "icon.png" ]))
    by (intros [s Hs]; discriminate Hs).
  assert (Hne : [ "work"; "icon.png" ] ≠ output_key Sample.cwd output_icns_default)
    by discriminate.
  assert (Hin : Sample.project !! [ "work"; "icon.png" ] = Some (File "png"))
    by (vm_compute; reflexivity).
  assert (H1 : Sample.built.1.1 = Ret true) by (vm_compute; reflexivity).
  assert (H2 : Sample.uncompiled.1.1 = Ret false) by (vm_compute; reflexivity).
  split; [exact Hout |]. split; [exact Hne |]. split.
  - destruct (generate_icon Sample.tools _ _ _ _) as [[r t'] tr] eqn:Hrun.
    cbn [fst snd] in *. subst r.
    destruct (entries_outside_untouched _ _ _ _ _ _ _ _ _ Hrun Hout Hne)
      as [Hsame | (Hnone & _)]; congruence.
  - destruct (generate_icon Sample.iconutil_failing _ _ _ _) as [[r t'] tr] eqn:Hrun.
    cbn [fst snd] in *. subst r.
    destruct (entries_outside_untouched _ _ _ _ _ _ _ _ _ Hrun Hout Hne)
      as [Hsame | (Hnone & _)]; congruence.
Defined.

(** ** When a call returns *)

Lemma returns_bind {A B} (m : M A) (f : A -> M B) (cwd : key) (t : tree) Q R :
  returns m cwd t Q ->
  (forall a t1, Q a t1 -> returns (f a) cwd t1 R) ->
  returns (bind m f) cwd t R.
Proof.
  intros (a & t1 & tr1 & Hm & HQ) Hf.
  destruct (Hf a t1 HQ) as (b & t2 & tr2 & Hfa & HR).
  exists b, t2, (tr1 ++ tr2). split; [| exact HR].
  unfold bind. by rewrite Hm, Hfa.
Qed.

Lemma returns_print (line : string) (cwd : key) (t : tree) : returns (print line) cwd t (fun _ t' => t' = t).
Proof. by exists tt, t, [ EvPrint line ]. Qed.

Ltac after_print :=
  eapply returns_bind; [apply returns_print |];
  let u := fresh in let t := fresh "t" in let H := fresh in
  intros u t H; cbv beta in H; subst t; clear u.

Lemma returns_ret {A} (a : A) (cwd : key) (t : tree) (Q : A -> tree -> Prop) :
  Q a t -> returns (ret a) cwd t Q.
Proof. intros HQ. by exists a, t, []. Qed.

Lemma returns_rmtree_iconset (cwd : key) (t : tree) :
  is_dir t (iconset_key cwd) = true ->
  returns (shutil_rmtree iconset_name) cwd t
    (fun _ t' => t' = remove_subtree (iconset_key cwd) t).
Proof. intros Hd. eexists tt, _, _. split; [by apply rmtree_iconset | reflexivity]. Qed.

Lemma returns_subprocess_run (env : utilities) (argv : list string) (cwd : key)
  (t : tree) (k : key) :
  completes env cwd argv ->
  is_dir t k = true ->
  returns (subprocess_run env argv) cwd t (fun _ t' => is_dir t' k = true).
Proof.
  intros Hcompletes Hd. destruct (Hcompletes t) as (cp & t' & Hrun).
  destruct (subprocess_run env argv cwd t) as [[r t''] tr] eqn:Hsub.
  cbn [fst] in Hrun. injection Hrun as -> ->.
  exists cp, t', tr. split; [exact Hsub |].
  apply subprocess_run_inv in Hsub as (Hleft & _).
  eapply left_by_keeps_dir; eassumption.
Qed.

Lemma returns_loop (env : utilities) (input_image : string) (cwd : key)
  (l : list (Z * string)) :
  forall t : tree,
    (forall spec, In spec l -> completes env cwd (sips_argv input_image spec)) ->
    is_dir t (iconset_key cwd) = true ->
    returns (for_each l (render env input_image)) cwd t
      (fun early t' => early = None -> is_dir t' (iconset_key cwd) = true).
Proof.
  induction l as [| spec l IH]; intros t Hlaunch Hd.
  - apply returns_ret. auto.
  - cbn [for_each].
    apply returns_bind with
      (Q := fun early t' => early = None -> is_dir t' (iconset_key cwd) = true).
    + unfold render.
      eapply returns_bind;
        [apply (returns_subprocess_run _ _ _ _ (iconset_key cwd));
         [apply Hlaunch; by left | exact Hd] |].
      intros cp t1 Hd1. cbv beta in Hd1.
      destruct (negb (returncode cp =? 0)%Z).
      * after_print.
        eapply returns_bind; [by apply returns_rmtree_iconset |]. intros u t3 _.
        apply returns_ret. discriminate.
      * apply returns_ret. auto.
    + intros [answer |] t1 Hd1.
      * apply returns_ret. discriminate.
      * apply IH; [intros s Hs; apply Hlaunch; by right | by apply Hd1].
Qed.

Lemma returns_exists (s : string) (cwd : key) (t : tree) :
  returns (os_path_exists s) cwd t (fun b t' => t' = t /\ b = path_exists cwd t s).
Proof. by eexists _, _, _. Qed.

Lemma returns_remove_old (cwd : key) (t1 : tree) :
  (forall c, t1 !! iconset_key cwd ≠ Some (File c)) ->
  is_dir t1 cwd = true ->
  returns (if path_exists cwd t1 iconset_name
           then shutil_rmtree iconset_name else ret tt) cwd t1
    (fun _ t2 => stat t2 (iconset_key cwd) = None /\ is_dir t2 cwd = true).
Proof.
  intros Hfile Hcwd.
  assert (Hstat : stat t1 (iconset_key cwd) = t1 !! iconset_key cwd)
    by (unfold iconset_key; apply stat_snoc).
  rewrite path_exists_iconset, Hstat.
  destruct (t1 !! iconset_key cwd) as [[c |] |] eqn:Hk.
  - by destruct (Hfile c).
  - rewrite bool_decide_true by done.
    assert (Hd : is_dir t1 (iconset_key cwd) = true)
      by (apply is_dir_spec; congruence).
    destruct (returns_rmtree_iconset cwd t1 Hd) as (u & t2 & tr & Hrm & ->).
    eexists u, _, tr. split; [exact Hrm |]. split.
    + unfold iconset_key. rewrite stat_snoc. by apply remove_subtree_inside.
    + rewrite remove_subtree_keeps_dir by apply iconset_not_above_cwd. exact Hcwd.
  - rewrite bool_decide_false by (intros H; by apply H).
    apply returns_ret. split; [congruence | exact Hcwd].
Qed.

Lemma returns_makedirs (cwd : key) (t2 : tree) :
  stat t2 (iconset_key cwd) = None ->
  is_dir t2 cwd = true ->
  returns (os_makedirs iconset_name) cwd t2
    (fun _ t3 => is_dir t3 (iconset_key cwd) = true).
Proof.
  intros Hnone Hcwd2.
  assert (Hok : os_makedirs iconset_name cwd t2
                = (Ret tt, <[ iconset_key cwd := Dir ]> t2, [ EvMakedirs iconset_name ])).
  { unfold os_makedirs, os_mkdir.
    change (has_nul iconset_name) with false. cbv iota.
    rewrite locate_iconset.
    change (negb (names_entry (tail (Path_of iconset_name)))) with false. cbv iota.
    rewrite Hnone. unfold iconset_key at 1. rewrite removelast_snoc.
    apply is_dir_spec in Hcwd2. by rewrite Hcwd2. }
  eexists tt, _, _. split; [exact Hok |]. apply is_dir_insert_dir.
Qed.



(** ** What is printed *)

Lemma printed_app tr1 tr2 : printed (tr1 ++ tr2) = printed tr1 ++ printed tr2.
Proof. apply omap_app. Qed.

Lemma printed_prepared input_image output_icns old :
  printed (prepared input_image output_icns old)
  = [ "🎨 Generating app icon...";
      "📥 Input image: " +:+ input_image;
      "📐 Generating icon sizes..." ].
Proof. destruct old; reflexivity. Qed.

Lemma In_printed line tr : In (EvPrint line) tr -> In line (printed tr).
Proof.
  intros Hin. apply list_elem_of_In. apply list_elem_of_In in Hin.
  unfold printed. apply list_elem_of_omap. eexists. split; [exact Hin | reflexivity].
Qed.

(** The texts a call has printed, by the way it ends. *)
Lemma trace_shape_printed input_image output_icns r tr :
  trace_shape input_image output_icns r tr ->
  let opening := [ "🎨 Generating app icon...";
                   "📥 Input image: " +:+ input_image;
                   "📐 Generating icon sizes..." ] in
  let compiling := [ "✅ Generated all icon sizes"; "🔨 Generating .icns file..." ] in
  match r with
  | Ret true =>
      printed tr = opening ++ compiling
                   ++ [ "✅ Icon generated successfully!";
                        "📦 Output file: " +:+ str (Path_of output_icns) ]
  | Ret false =>
      (exists filename err,
         printed tr = opening ++ [ failed_to_generate filename err ])
      \/ (exists err,
            printed tr = opening ++ compiling ++ [ generation_failed err ])
  | Raise _ =>
      printed tr = [] \/ printed tr = opening \/ printed tr = opening ++ compiling
  end.
Proof.
  destruct 1 as [e tr Hos Htr
                | old l1 spec l2 oks before e Hl Hoks He
                | old l1 spec l2 oks before cp Hl Hoks Hrc
                | old oks before e Hoks He
                | old oks before cp Hoks]; cbv zeta.
  - apply unprepared_quiet in Htr. tauto.
  - rewrite !printed_app, printed_prepared, (rendered_printed _ _ _ Hoks). auto.
  - rewrite !printed_app, printed_prepared, (rendered_printed _ _ _ Hoks).
    left. by exists spec.2, (stderr cp).
  - rewrite !printed_app, printed_prepared, (rendered_printed _ _ _ Hoks). auto.
  - rewrite !printed_app, printed_prepared, (rendered_printed _ _ _ Hoks).
    unfold compiled. destruct (returncode cp =? 0)%Z; cbn [negb].
    + reflexivity.
    + right. by exists (stderr cp).
Qed.

(** X5: a failure is never silent and an error is never a false alarm.
    When a call returns [False], exactly one of its calls of [print] has a
    text that begins with the error mark, and it is the last one; when it
    returns [True] or raises, none has.  (This counts calls of [print], not
    lines of the console: a diagnostic text or an input path may hold line
    breaks.) *)
Theorem error_message_iff_failure
  env input_image output_icns cwd t r t' tr :
  generate_icon env input_image output_icns cwd t = (r, t', tr) ->
  List.filter is_error_message (printed tr)
  = match r with
    | Ret false => [ List.last (printed tr) "" ]
    | _ => []
    end.
Proof.
  intros Hrun. apply generate_icon_sound, build_run_shape in Hrun.
  pose proof (trace_shape_printed _ _ _ _ Hrun) as Hp. cbv zeta in Hp.
  destruct r as [[] | e].
  - rewrite Hp. reflexivity.
  - destruct Hp as [(filename & err & ->) | (err & ->)]; reflexivity.
  - destruct Hp as [-> | [-> | ->]]; reflexivity.
Qed.

Lemma error_message_iff_failure_witness :
  List.filter is_error_message (printed Sample.unrendered.2)
  = [ "❌ Failed to generate icon_32x32.png: Error 13: an unknown error occurred" ]
  /\ List.filter is_error_message (printed Sample.built.2) = [].
Proof.
  assert (H1 : Sample.unrendered.1.1 = Ret false) by (vm_compute; reflexivity).
  assert (H2 : List.last (printed Sample.unrendered.2) ""
               = "❌ Failed to generate icon_32x32.png: Error 13: an unknown error occurred")
    by (vm_compute; reflexivity).
  assert (H3 : Sample.built.1.1 = Ret true) by (vm_compute; reflexivity).
  split.
  - destruct (generate_icon (Sample.sips_failing_on _) _ _ _ _) as [[r t'] tr] eqn:Hrun.
    cbn [fst snd] in *.
    rewrite (error_message_iff_failure _ _ _ _ _ _ _ _ Hrun), H1. by rewrite H2.
  - destruct (generate_icon Sample.tools _ _ _ _) as [[r t'] tr] eqn:Hrun.
    cbn [fst snd] in *.
    by rewrite (error_message_iff_failure _ _ _ _ _ _ _ _ Hrun), H3.
Defined.

(** ** The command line, again *)

(** X6: the script reads one argument only: the program name and any
    argument after the input path have no influence on the run. *)
Theorem extra_arguments_ignored
  (env : utilities) (program input_image : string) (others : list string)
  (program' : string) (cwd : key) (t : tree) :
  main env (program :: input_image :: others) cwd t
  = main env [ program'; input_image ] cwd t.
Proof. rewrite !main_unfold. reflexivity. Qed.

Lemma generate_icon_never_prints_tip env input_image output_icns cwd t r t' tr :
  generate_icon env input_image output_icns cwd t = (r, t', tr) ->
  ¬ In tip tr.
Proof.
  intros Hrun Hin. apply generate_icon_sound, build_run_shape in Hrun.
  apply In_printed in Hin.
  pose proof (trace_shape_printed _ _ _ _ Hrun) as Hp. cbv zeta in Hp.
  destruct r as [[] | e].
  - rewrite Hp in Hin. cbn in Hin. intuition discriminate.
  - destruct Hp as [(filename & err & Hp) | (err & Hp)]; rewrite Hp in Hin;
      cbn in Hin; intuition discriminate.
  - destruct Hp as [Hp | [Hp | Hp]]; rewrite Hp in Hin; cbn in Hin;
      intuition discriminate.
Qed.

(** X7: the script never runs off its end: every run ends in [sys.exit] or
    in an uncaught exception of the operating system, its exit status is 0
    or 1, and the status is 0 exactly when the tip has been printed. *)
Theorem exit_status_zero_iff_tip env argv cwd t r t' tr :
  main env argv cwd t = (r, t', tr) ->
  (exists e, r = Raise e)
  /\ (exit_status r = 0%Z \/ exit_status r = 1%Z)
  /\ (exit_status r = 0%Z <-> In tip tr).
Proof.
  intros Hrun. rewrite main_unfold in Hrun.
  destruct (length argv <? 2)%nat.
  { injection Hrun as <- <- <-. split; [eauto |]. split; [by right |].
    split; [discriminate |]. cbn. intuition discriminate. }
  destruct (path_exists cwd t (List.nth 1 argv "")).
  2:{ injection Hrun as <- <- <-. split; [eauto |]. split; [by right |].
      split; [discriminate |]. cbn. intuition discriminate. }
  destruct (generate_icon env (List.nth 1 argv "") output_icns_default cwd t)
    as [[rb tb] trb] eqn:Hbuild.
  pose proof (generate_icon_never_prints_tip _ _ _ _ _ _ _ _ Hbuild) as Hno.
  destruct rb as [[] | e]; injection Hrun as <- <- <-.
  - split; [eauto |]. split; [by left |]. split; [| reflexivity].
    intros _. apply in_or_app. right. by left.
  - split; [eauto |]. split; [by right |]. split; [discriminate | contradiction].
  - apply generate_icon_os_error in Hbuild.
    split; [eauto |]. destruct e; try discriminate Hbuild;
      (split; [by right |]); (split; [discriminate | contradiction]).
Qed.

Lemma exit_status_zero_iff_tip_witness :
  exit_status
    (main Sample.tools [ "generate_icon.py"; "icon.png" ] Sample.cwd Sample.project).1.1
  = 0%Z
  /\ In tip
       (main Sample.tools [ "generate_icon.py"; "icon.png" ] Sample.cwd Sample.project).2.
Proof.
  assert (H0 : exit_status
                 (main Sample.tools [ "generate_icon.py"; "icon.png" ]
                    Sample.cwd Sample.project).1.1 = 0%Z)
    by (vm_compute; reflexivity).
  destruct (main Sample.tools [ "generate_icon.py"; "icon.png" ] _ _)
    as [[r t'] tr] eqn:Hrun.
  cbn [fst snd] in *. split; [exact H0 |].
  by apply (exit_status_zero_iff_tip _ _ _ _ _ _ _ Hrun).
Defined.

Lemma resources_outside (cwd : key) :
  ¬ (iconset_key cwd `prefix_of` resources_key cwd).
Proof.
  unfold iconset_key, resources_key. intros [s Hs].
  rewrite <- app_assoc in Hs. apply app_inv_head in Hs. discriminate Hs.
Qed.

Lemma resources_key_spec (cwd : key) :
  key_of cwd (parent (Path_of output_icns_default)) = resources_key cwd.
Proof. unfold resources_key. cbn. by rewrite <- app_assoc. Qed.

Lemma build_run_keeps_output_directory input_image output_icns cwd t answer t' tr :
  build_run input_image output_icns cwd t (Ret answer) t' tr ->
  ¬ (iconset_key cwd `prefix_of` key_of cwd (parent (Path_of output_icns))) ->
  is_dir t' (key_of cwd (parent (Path_of output_icns))) = true.
Proof.
  intros Hrun Hout.
  inversion Hrun as [| | | t1 answer' t'' trl old Hmade Hcwd Hloop | |
                     t1 t4 trl cp t5 old Hmade Hcwd Hloop Hleft Hr]; subst.
  - eapply loop_run_keeps_dir; [exact Hloop | exact Hout |].
    rewrite prepared_tree_is_dir_outside by exact Hout.
    by eapply output_directory_exists.
  - rewrite remove_subtree_keeps_dir by exact Hout.
    eapply left_by_keeps_dir; [exact Hleft |].
    eapply loop_run_keeps_dir; [exact Hloop | exact Hout |].
    rewrite prepared_tree_is_dir_outside by exact Hout.
    by eapply output_directory_exists.
Qed.

(** X8: on the command line the output path is fixed, and the caveat on
    the directory of the output does not arise.  When the script is given an
    existing input and ends in [sys.exit], it leaves no working directory
    behind and it leaves the directory [VeloxClip/Resources] in existence,
    whether the icon was built or not. *)
Theorem command_line_leaves_resources env argv cwd t code t' tr :
  main env argv cwd t = (Raise (SystemExit code), t', tr) ->
  (2 <= length argv)%nat ->
  path_exists cwd t (List.nth 1 argv "") = true ->
  path_exists cwd t' iconset_name = false
  /\ is_dir t' (resources_key cwd) = true.
Proof.
  intros Hrun Hlen Hexists. rewrite main_unfold in Hrun.
  apply Nat.ltb_ge in Hlen. rewrite Hlen, Hexists in Hrun.
  destruct (generate_icon env (List.nth 1 argv "") output_icns_default cwd t)
    as [[rb tb] trb] eqn:Hbuild.
  assert (Hret : exists answer, rb = Ret answer /\ tb = t').
  { destruct rb as [[] | e]; inversion Hrun; subst; eauto.
    apply generate_icon_os_error in Hbuild. discriminate Hbuild. }
  destruct Hret as (answer & -> & ->). apply generate_icon_sound in Hbuild. split.
  - apply absent_iconset. by eapply build_run_removed.
  - rewrite <- resources_key_spec.
    apply (build_run_keeps_output_directory _ _ _ _ _ _ _ Hbuild).
    rewrite resources_key_spec. apply resources_outside.
Qed.

Lemma command_line_leaves_resources_witness :
  path_exists Sample.cwd Sample.project "icon.png" = true
  /\ (main (Sample.sips_failing_on "icon_32x32.png") [ "generate_icon.py"; "icon.png" ]
        Sample.cwd Sample.project).1.1 = Raise (SystemExit 1)
  /\ is_dir
       (main (Sample.sips_failing_on "icon_32x32.png") [ "generate_icon.py"; "icon.png" ]
          Sample.cwd Sample.project).1.2 [ "work"; "VeloxClip"; "Resources" ] = true.
Proof.
  assert (Hexists : path_exists Sample.cwd Sample.project "icon.png" = true)
    by reflexivity.
  assert (Hr : (main (Sample.sips_failing_on "icon_32x32.png")
                  [ "generate_icon.py"; "icon.png" ]
                  Sample.cwd Sample.project).1.1 = Raise (SystemExit 1))
    by (vm_compute; reflexivity).
  split; [exact Hexists |]. split; [exact Hr |].
  destruct (main (Sample.sips_failing_on _) [ "generate_icon.py"; "icon.png" ] _ _)
    as [[r t'] tr] eqn:Hrun.
  cbn [fst snd] in *. subst r.
  apply (command_line_leaves_resources _ _ _ _ _ _ _ Hrun); [cbn; lia | exact Hexists].
Defined.

(** ** Two edge cases of the preparation *)

(** X9: a regular file with the name of the working directory stops the
    call: [os.path.exists] finds it, [shutil.rmtree] refuses it, and the
    call raises [NotADirectoryError] before anything is printed and before
    any tool is invoked; the file stays. *)
Theorem regular_file_blocks_the_call
  (env : utilities) (input_image output_icns : string) (cwd : key) (t t1 : tree)
  (content : string) :
  output_directory_made output_icns cwd t t1 ->
  t !! iconset_key cwd = Some (File content) ->
  generate_icon env input_image output_icns cwd t
  = (Raise (NotADirectoryError iconset_name), t1,
     [ EvMkdir (str (parent (Path_of output_icns))); EvRmtree iconset_name ])
  /\ t1 !! iconset_key cwd = Some (File content).
Proof.
  intros Hmade Hfile.
  assert (Hfile1 : t1 !! iconset_key cwd = Some (File content))
    by (by apply (output_directory_made_spec _ _ _ _ Hmade)).
  split; [| exact Hfile1].
  assert (Hstat : stat t1 (iconset_key cwd) = Some (File content))
    by (unfold iconset_key in *; by rewrite stat_snoc).
  unfold generate_icon. unfold bind at 1.
  unfold output_directory_made in Hmade. cbv zeta in Hmade. rewrite Hmade.
  unfold bind at 1. cbn [os_path_exists]. unfold bind at 1.
  rewrite path_exists_iconset, Hstat, bool_decide_true by done.
  unfold shutil_rmtree. rewrite locate_iconset, Hstat. reflexivity.
Qed.

Lemma regular_file_blocks_the_call_witness :
  Edge.blocked_project !! iconset_key Sample.cwd = Some (File "not a directory")
  /\ Edge.blocked.1.1 = Raise (NotADirectoryError iconset_name)
  /\ invocations Edge.blocked.2 = [].
Proof.
  assert (Hfile : Edge.blocked_project !! iconset_key Sample.cwd
                  = Some (File "not a directory"))
    by (vm_compute; reflexivity).
  split; [exact Hfile |].
  assert (Hr : (Path_mkdir (parent (Path_of output_icns_default))
                  Sample.cwd Edge.blocked_project).1.1 = Ret tt)
    by (vm_compute; reflexivity).
  assert (Htr : (Path_mkdir (parent (Path_of output_icns_default))
                   Sample.cwd Edge.blocked_project).2
                = [ EvMkdir (str (parent (Path_of output_icns_default))) ])
    by (vm_compute; reflexivity).
  destruct (Path_mkdir (parent (Path_of output_icns_default))
              Sample.cwd Edge.blocked_project) as [[r0 t1] tr0] eqn:Hmade.
  cbn [fst snd] in Hr, Htr. subst r0 tr0.
  destruct (regular_file_blocks_the_call Sample.tools "icon.png" output_icns_default
              Sample.cwd Edge.blocked_project t1 "not a directory" Hmade Hfile)
    as (Hrun & _).
  rewrite Hrun. split; reflexivity.
Defined.

Lemma first_seen_prepared input_image output_icns old argv before completed rest :
  first_seen (prepared input_image output_icns old
              ++ EvRun argv before completed :: rest) = Some before.
Proof. destruct old; reflexivity. Qed.

Lemma first_seen_invoked tr before :
  first_seen tr = Some before -> invocations tr ≠ [].
Proof.
  unfold first_seen, invocations.
  induction tr as [| e tr IH]; [discriminate |].
  destruct e; cbn; try exact IH. intros _. discriminate.
Qed.

(** X10: an image kept inside the working directory does not survive the
    preparation.  The check of [__main__] may find it, but [generate_icon]
    removes the old working directory first: in the tree the first tool
    runs in, the input path names nothing. *)
Theorem input_inside_iconset_is_deleted
  env input_image output_icns cwd t r t' tr before :
  generate_icon env input_image output_icns cwd t = (r, t', tr) ->
  first_seen tr = Some before ->
  well_formed t ->
  iconset_key cwd `prefix_of` resolve cwd input_image ->
  resolve cwd input_image ≠ iconset_key cwd ->
  before !! resolve cwd input_image = None
  /\ path_exists cwd before input_image = false.
Proof.
  intros Hrun Hfirst Hwf Hin Hne. apply generate_icon_sound in Hrun.
  pose proof (first_seen_invoked _ _ Hfirst) as Hinv.
  destruct (build_run_prepared _ _ _ _ _ _ _ Hrun Hinv)
    as (t1 & rl & tl & trl & rest & Hmade & Hcwd & Hloop & ->).
  apply loop_run_first in Hloop. destruct Hloop as (completed & rest' & ->).
  cbn [app] in Hfirst.
  rewrite first_seen_prepared in Hfirst. injection Hfirst as <-.
  assert (Hnone : prepared_tree cwd (path_exists cwd t1 iconset_name) t1
                  !! resolve cwd input_image = None).
  { apply prepared_tree_fresh; [| exact Hin | exact Hne].
    by apply (output_directory_made_spec _ _ _ _ Hmade). }
  split; [exact Hnone |].
  assert (Hkey : resolve cwd input_image ≠ []).
  { intros Hnil. destruct Hin as [s Hs]. rewrite Hnil in Hs.
    unfold iconset_key in Hs. destruct cwd; discriminate Hs. }
  unfold path_exists at 1, os_stat. destruct (has_nul input_image); [reflexivity |].
  destruct (locate cwd _ input_image) as [e | k] eqn:Hk; [reflexivity |].
  apply locate_inr in Hk. subst k.
  destruct (tail (Path_of input_image)) as [| c l] eqn:Htail.
  - exfalso. unfold resolve, key_of in Hin. rewrite Htail in Hin. cbn [fold_left] in Hin.
    unfold base_of in Hin. destruct (root (Path_of input_image)).
    + by apply iconset_not_above_cwd in Hin.
    + destruct Hin as [more Hmore]. unfold iconset_key in Hmore.
      destruct cwd; discriminate Hmore.
  - rewrite stat_nonempty by exact Hkey. by rewrite Hnone.
Qed.

Lemma misplaced_project_well_formed : well_formed Edge.misplaced_project.
Proof. apply well_formed_check. vm_compute. reflexivity. Qed.

Lemma input_inside_iconset_is_deleted_witness :
  path_exists Sample.cwd Edge.misplaced_project "VeloxClip.iconset/icon.png" = true
  /\ well_formed Edge.misplaced_project
  /\ exists before,
       first_seen Edge.misplaced.2 = Some before
       /\ path_exists Sample.cwd before "VeloxClip.iconset/icon.png" = false.
Proof.
  assert (Hexists : path_exists Sample.cwd Edge.misplaced_project
                      "VeloxClip.iconset/icon.png" = true)
    by (vm_compute; reflexivity).
  pose proof misplaced_project_well_formed as Hwf.
  split; [exact Hexists |]. split; [exact Hwf |].
  assert (Hsome : match first_seen Edge.misplaced.2 with
                  | Some _ => true
                  | None => false
                  end = true)
    by (vm_compute; reflexivity).
  destruct (generate_icon Sample.tools _ _ _ Edge.misplaced_project)
    as [[r t'] tr] eqn:Hrun.
  cbn [fst snd] in *.
  destruct (first_seen tr) as [before |] eqn:Hfirst; [| discriminate Hsome].
  exists before. split; [reflexivity |].
  apply (input_inside_iconset_is_deleted _ _ _ _ _ _ _ _ _ Hrun Hfirst Hwf).
  - by exists [ "icon.png" ].
  - discriminate.
Defined.

(** ** Calling again *)

Lemma build_run_made (input_image output_icns : string) (cwd : key) (t : tree)
  (answer : bool) (t' : tree) (tr : list event) :
  build_run input_image output_icns cwd t (Ret answer) t' tr ->
  exists t1, output_directory_made output_icns cwd t t1.
Proof. inversion 1; subst; eauto. Qed.

(** X11: calling again does no further harm.  After a call that has
    returned, a second call for the same output path, whatever its input,
    whatever the tools do this time and whatever it returns, leaves every
    entry of the tree as the first call left it, with the one possible
    exception of the output file. *)
Theorem second_call_changes_only_the_output
  env1 env2 input1 input2 output_icns cwd t answer1 t1 tr1 answer2 t2 tr2 (k : key) :
  generate_icon env1 input1 output_icns cwd t = (Ret answer1, t1, tr1) ->
  generate_icon env2 input2 output_icns cwd t1 = (Ret answer2, t2, tr2) ->
  k ≠ output_key cwd output_icns ->
  t2 !! k = t1 !! k.
Proof.
  intros Hrun1 Hrun2 Hne.
  apply generate_icon_sound in Hrun1, Hrun2.
  destruct (decide (iconset_key cwd `prefix_of` k)) as [Hin | Hout].
  { rewrite (build_run_removed _ _ _ _ _ _ _ _ Hrun1 Hin).
    by rewrite (build_run_removed _ _ _ _ _ _ _ _ Hrun2 Hin). }
  destruct (build_run_outside _ _ _ _ _ _ _ _ Hrun2 Hout Hne) as (u2 & Hmade2 & ->).
  destruct (build_run_made _ _ _ _ _ _ _ Hrun1) as (u1 & Hmade1).
  destruct (output_directory_made_spec _ _ _ _ Hmade1) as (_ & _ & _ & _ & _ & _ & Hdirs).
  destruct (output_directory_made_spec _ _ _ _ Hmade2) as (_ & _ & _ & _ & Hadd & _).
  destruct (Hadd k) as [Hsame | (Hnone & Hdir & Hk)]; [exact Hsame |].
  exfalso.
  destruct (decide (k = [])) as [-> | Hnil].
  { rewrite (output_directory_made_root _ _ _ _ Hmade2) in Hdir. congruence. }
  assert (Hd1 : is_dir t1 k = true).
  { eapply build_run_keeps_dir; [exact Hrun1 | exact Hmade1 | exact Hout |].
    by apply Hdirs. }
  apply is_dir_spec in Hd1. rewrite stat_nonempty in Hd1 by exact Hnil. congruence.
Qed.

Lemma second_call_changes_only_the_output_witness :
  [ "work"; "icon.png" ] ≠ output_key Sample.cwd output_icns_default
  /\ Edge.again.1.1 = Ret false
  /\ Edge.again.1.2 !! [ "work"; "icon.png" ]
     = Sample.built.1.2 !! [ "work"; "icon.png" ].
Proof.
  assert (Hne : [ "work"; "icon.png" ] ≠ output_key Sample.cwd output_icns_default)
    by discriminate.
  assert (H1 : Sample.built.1.1 = Ret true) by (vm_compute; reflexivity).
  assert (H2 : Edge.again.1.1 = Ret false) by (vm_compute; reflexivity).
  split; [exact Hne |]. split; [exact H2 |].
  revert H1 H2.
  destruct (generate_icon Sample.tools _ _ _ _) as [[r1 t1] tr1] eqn:Hrun1.
  cbn [fst snd].
  destruct (generate_icon Sample.iconutil_failing _ _ _ _) as [[r2 t2] tr2] eqn:Hrun2.
  cbn [fst snd]. intros -> ->.
  exact (second_call_changes_only_the_output _ _ _ _ _ _ _ _ _ _ _ _ _ _
           Hrun1 Hrun2 Hne).
Defined.

(** ** The tree stays well formed *)

Lemma removelast_prefix (k : key) : removelast k `prefix_of` k.
Proof.
  destruct (decide (k = [])) as [-> | Hne]; [done |].
  exists [ List.last k "" ]. by apply app_removelast_last.
Qed.

Lemma well_formed_remove_subtree (k : key) (t : tree) :
  well_formed t -> well_formed (remove_subtree k t).
Proof.
  intros Hwf k' n. rewrite lookup_remove_subtree.
  destruct (decide (k `prefix_of` k')) as [| Hout]; [discriminate |].
  intros Hk'. rewrite remove_subtree_keeps_dir; [exact (Hwf _ _ Hk') |].
  intros Hp. apply Hout. etrans; [exact Hp | apply removelast_prefix].
Qed.

Lemma well_formed_write_file (k : key) (content : string) (t : tree) :
  well_formed t -> well_formed (write_file k content t).
Proof.
  intros Hwf. unfold write_file.
  destruct (is_dir t (removelast k)) eqn:Hparent; simpl; [| exact Hwf].
  destruct (is_dir t k) eqn:Hdir; simpl; [exact Hwf |].
  assert (Hne : removelast k ≠ k) by congruence.
  intros k' n. destruct (decide (k' = k)) as [-> | Hk'].
  - intros _. by rewrite is_dir_insert_other.
  - rewrite lookup_insert_ne by congruence. intros Hin.
    rewrite is_dir_insert_other; [exact (Hwf _ _ Hin) |].
    intros Heq. apply Hwf in Hin. congruence.
Qed.

Lemma well_formed_left_by (k : key) (t t' : tree) :
  left_by k t t' -> well_formed t -> well_formed t'.
Proof. intros [-> | [c ->]] Hwf; [exact Hwf | by apply well_formed_write_file]. Qed.

Lemma well_formed_loop_run (input_image : string) (cwd : key) (l : list (Z * string))
  (t : tree) (r : result (option bool)) (t' : tree) (tr : list event) :
  loop_run input_image cwd l t r t' tr -> well_formed t -> well_formed t'.
Proof.
  induction 1 as [t | spec l t cp t1 r t' tr Hrc Hleft Hloop IH
                  | spec l t cp t1 Hrc Hleft | spec l t e t1 He Hleft]; intros Hwf.
  - exact Hwf.
  - apply IH. by eapply well_formed_left_by.
  - apply well_formed_remove_subtree. by eapply well_formed_left_by.
  - by eapply well_formed_left_by.
Qed.

Lemma well_formed_prepared_tree (cwd : key) (old : bool) (t1 : tree) :
  is_dir (prepared_tree cwd old t1) cwd = true ->
  well_formed t1 -> well_formed (prepared_tree cwd old t1).
Proof.
  intros Hcwd Hwf. unfold prepared_tree in *.
  rewrite is_dir_insert_other in Hcwd by apply iconset_key_not_cwd.
  apply well_formed_mkdir; [| exact Hcwd].
  destruct old; [by apply well_formed_remove_subtree | exact Hwf].
Qed.

(** X12: a call keeps the tree well formed, however it ends: when every
    entry lay in a directory before the call, every entry lies in a
    directory after it.  In particular the removals take whole subtrees,
    and nothing is created in a directory that does not exist. *)
Theorem well_formed_kept
  (env : utilities) (input_image output_icns : string) (cwd : key) (t : tree)
  (r : result bool) (t' : tree) (tr : list event) :
  generate_icon env input_image output_icns cwd t = (r, t', tr) ->
  well_formed t ->
  well_formed t'.
Proof.
  intros Hrun Hwf. apply generate_icon_sound in Hrun.
  assert (Hmade_wf : forall t1, output_directory_made output_icns cwd t t1 ->
                                well_formed t1).
  { intros t1 Hmade.
    destruct (output_directory_made_spec _ _ _ _ Hmade) as (_ & _ & _ & Hwf1 & _).
    by apply Hwf1. }
  destruct Hrun as [e t' Hos Hmk
                   | t1 e t' tr Hmade Hos Htr Ht
                   | t1 e t' trl old Hmade Hcwd Hloop
                   | t1 answer t' trl old Hmade Hcwd Hloop
                   | t1 t4 trl e t5 old Hmade Hcwd Hloop He Hleft
                   | t1 t4 trl cp t5 old Hmade Hcwd Hloop Hleft].
  - destruct (Path_mkdir_spec _ _ _ _ _ _ (normal_output_directory output_icns) Hmk)
      as (_ & _ & Hwf1 & _).
    by apply Hwf1.
  - destruct Ht as [-> | ->]; [by apply Hmade_wf |].
    by apply well_formed_remove_subtree, Hmade_wf.
  - eapply well_formed_loop_run; [exact Hloop |].
    apply well_formed_prepared_tree; [exact Hcwd | by apply Hmade_wf].
  - eapply well_formed_loop_run; [exact Hloop |].
    apply well_formed_prepared_tree; [exact Hcwd | by apply Hmade_wf].
  - eapply well_formed_left_by; [exact Hleft |].
    eapply well_formed_loop_run; [exact Hloop |].
    apply well_formed_prepared_tree; [exact Hcwd | by apply Hmade_wf].
  - apply well_formed_remove_subtree.
    eapply well_formed_left_by; [exact Hleft |].
    eapply well_formed_loop_run; [exact Hloop |].
    apply well_formed_prepared_tree; [exact Hcwd | by apply Hmade_wf].
Qed.

Lemma well_formed_kept_witness :
  well_formed Sample.stale_project
  /\ Sample.rebuilt.1.1 = Ret true
  /\ well_formed Sample.rebuilt.1.2.
Proof.
  pose proof stale_project_well_formed as Hwf.
  assert (H1 : Sample.rebuilt.1.1 = Ret true) by (vm_compute; reflexivity).
  split; [exact Hwf |]. split; [exact H1 |].
  destruct (generate_icon _ _ _ _ _) as [[r t'] tr] eqn:Hrun.
  exact (well_formed_kept _ _ _ _ _ _ _ _ Hrun Hwf).
Defined.
